(** * The query library of [src/state/query/lib.ts]

    A shallow embedding of the per-key query state machine (class [Query]),
    of the option merge done by its constructor, and of the hierarchical
    registry (the "query map") with its key-addressed operations.

    Conventions of the embedding
    - a value [number | false] is an [option Z] ([None] is [false]);
      a [Date | false] is an [option Z] holding milliseconds since the epoch;
    - a [NodeJS.Timeout | undefined] field is an [option Z]: [Some t] is a
      pending timer, named by the time [t] it was asked for ([Date.now()] plus
      the delay given to [setTimeout]); [None] is no pending timer.  When the
      host runs the callback is not modelled (hosts clamp delays below 1 ms
      and from 2^31 ms on): the steps [OpStaleTimerFired] and
      [OpCacheTimerFired] can happen whenever the timer is pending.  Every
      place that overwrites such a field calls [clearTimeout] on the old
      handle first, and a timer that fires runs a callback that resets the
      field, so a call that returns leaves a handle in the field exactly
      while a timer is pending;
    - [cache.data] of type [['none'] | ['some', T]] is an [option];
    - the [async] method [fetcher] is cut at its two [await]s: the record field
      [fetcher_pc] remembers where the coroutine is suspended, and the
      continuation after each [await] is a function of its own;
    - the svelte store [currentWithCaching_] is [derived] from the stores
      [current] and [query]; its value is the function [currentWithCaching_]
      applied to their present values;
    - there is one thread: a method call, a timer callback, a callback of a
      dependency or a resumption of the coroutine runs to its next [await]
      or to its end, and is one step of the transition system [step];
    - the fields [fetchCalls] and [retryWaits] of a query are not in the
      source: they record how often the fetch function was invoked and which
      retry delays were waited for;
    - the methods are modelled twice.  [setData], [resetStaleTimer], [step]
      and [reachable] are those of a query whose options hold both duration
      functions, [stale.duration] and [cache.duration]; with them no call
      throws but the consistency check of [fetcher].  [setData_call],
      [resetStaleTimer_call], [step_call] and [reachable_call] are those of
      any query: its options may have lost a duration function in the merge
      of the constructor, and the call of a function that is not there throws;
    - a query is modelled on its own: what the callbacks of other subscribers
      of its stores do (a query that depends on it among them) is not part of
      a step. *)

From Stdlib Require Import ZArith Lia.
From stdpp Require Import base option list gmap strings.

Local Open Scope Z_scope.
#[local] Set Warnings "-register-all".

(** ** The registry tree held by the store [queryMap] *)

(** An object of the tree.  [store = Some id] says that the object is the
    writable store of the query [id]: it has a [subscribe] method and its
    value has a [current] field, which is what [getQuery] tests.
    [store = None] is a plain mapping.  [props] are the properties that key
    segments address; a numeric segment addresses the property named by its
    decimal spelling, as in JavaScript.  Segments are assumed not to be names
    that every object inherits or that a store defines for itself. *)
Inductive QmItem : Type :=
| Node (store : option nat) (props : gmap string QmItem).

Definition item_store (item : QmItem) : option nat :=
  match item with Node store _ => store end.
Definition item_props (item : QmItem) : gmap string QmItem :=
  match item with Node _ props => props end.

(** The loop of [getQuery] (lib.ts 576-586).  The tree is mutated in place;
    the function returns the tree after the mutation and the object the loop
    ends on. *)
Fixpoint getQuery_walk (key : list string) (qmItem : QmItem)
  : QmItem * QmItem :=
  match key with
  | [] => (qmItem, qmItem)
  | subKey :: rest =>
    let child :=
      match item_props qmItem !! subKey with
      | Some c => c
      | None => Node None ∅
      end in
    let r := getQuery_walk rest child in
    (Node (item_store qmItem) (<[subKey := r.1]> (item_props qmItem)), r.2)
  end.

(** [getQuery] (lib.ts 571-597): the mutated tree, and the query found. *)
Definition getQuery (key : list string) (root : QmItem)
  : QmItem * option nat :=
  let r := getQuery_walk key root in
  (r.1, item_store r.2).

(** The object at the end of a path, when every segment is present. *)
Fixpoint node_at (key : list string) (item : QmItem) : option QmItem :=
  match key with
  | [] => Some item
  | subKey :: rest =>
    match item_props item !! subKey with
    | Some c => node_at rest c
    | None => None
    end
  end.

(** The chain of otherwise empty mappings [{k1: {k2: ... {}}}]. *)
Fixpoint empty_path (key : list string) : QmItem :=
  match key with
  | [] => Node None ∅
  | subKey :: rest => Node None {[ subKey := empty_path rest ]}
  end.

(** ** Objects of options and their merge *)

(** JavaScript values as far as option objects need them.  A function is
    known by a name only. *)
Inductive JsValue : Type :=
| JUndefined
| JBool (b : bool)
| JNumber (n : Z)
| JFunction (name : string)
| JArray (elems : list JsValue)
| JObject (props : list (string * JsValue)).

(** [obj[key]]: the first property of that name, [undefined] without one. *)
Fixpoint js_get (key : string) (props : list (string * JsValue)) : JsValue :=
  match props with
  | [] => JUndefined
  | (k, v) :: rest => if String.eqb k key then v else js_get key rest
  end.

(** [obj[key] = v]: an existing property keeps its place. *)
Fixpoint js_set (key : string) (v : JsValue) (props : list (string * JsValue))
  : list (string * JsValue) :=
  match props with
  | [] => [(key, v)]
  | (k, w) :: rest =>
    if String.eqb k key then (k, v) :: rest else (k, w) :: js_set key v rest
  end.

(** [{...a, ...b}]: the properties of [a], then those of [b] assigned over
    them one by one. *)
Definition js_spread (a b : list (string * JsValue))
  : list (string * JsValue) :=
  foldl (fun acc kv => js_set kv.1 kv.2 acc) a b.

(** [recursiveRemoveUndefined] (lib.ts 423-435).  The loop [for (key in obj)]
    deletes the properties that are [undefined] and descends into those whose
    [typeof] is ['object'], which arrays are too; deleting an element of an
    array leaves a hole, which reads as [undefined]. *)
Fixpoint recursiveRemoveUndefined (obj : JsValue) : JsValue :=
  match obj with
  | JObject props =>
    JObject
      ((fix each (ps : list (string * JsValue)) : list (string * JsValue) :=
          match ps with
          | [] => []
          | (k, v) :: rest =>
            match v with
            | JUndefined => each rest
            | JObject _ | JArray _ =>
              (k, recursiveRemoveUndefined v) :: each rest
            | _ => (k, v) :: each rest
            end
          end) props)
  | JArray elems =>
    JArray
      ((fix each (vs : list JsValue) : list JsValue :=
          match vs with
          | [] => []
          | v :: rest =>
            match v with
            | JObject _ | JArray _ => recursiveRemoveUndefined v :: each rest
            | _ => v :: each rest
            end
          end) elems)
  | _ => obj
  end.

(** The field initialiser of [Query.options] as an object (lib.ts 606-622). *)
Definition default_options_object : list (string * JsValue) :=
  [ ("dependencies", JArray []);
    ("onRetry", JFunction "retry 2 more times immediately");
    ("stale", JObject [ ("onSubscribeIfUnused", JBool false);
                        ("duration", JFunction "never");
                        ("refetchIfUnused", JBool false) ]);
    ("cache", JObject [ ("duration", JFunction "never") ]) ]%string.

(** The assignment to [this.options] in the constructor (lib.ts 652-655);
    spreading a value that is not an object contributes no property. *)
Definition Query_options (options : JsValue) : list (string * JsValue) :=
  match recursiveRemoveUndefined options with
  | JObject props => js_spread default_options_object props
  | _ => default_options_object
  end.

(** [o.k1.k2...]: reading a path of properties; reading a property of
    something that is not an object is modelled as [undefined]. *)
Fixpoint js_path (path : list string) (v : JsValue) : JsValue :=
  match path with
  | [] => v
  | k :: rest =>
    match v with
    | JObject props => js_path rest (js_get k props)
    | _ => JUndefined
    end
  end.

(** ** Tagged results *)

Section QueryModel.

Context {D E : Type}.

(** [QueryResult]: what a query exposes. *)
Inductive QueryResult : Type :=
| Idle
| Loading
| Err (isRefetching : bool) (err : E)
| Ok (data : D).

(** [FetchResult]: what the caller's fetch function resolves to. *)
Inductive FetchResult : Type :=
| FRetry (err : E) (returnError : bool)
| FErr (err : E)
| FOk (data : D).

(** ** The store value [QueryMapItem] *)

Record StaleState : Type := mkStale {
  turnsStaleAt : option Z;
  stale_duration : option Z;
  stale_timeout : option Z;
  isStale : bool
}.

Record CacheState : Type := mkCache {
  expiresAt : option Z;
  cache_duration : option Z;
  cache_timeout : option Z;
  hasCached : bool;
  cache_data : option D
}.

Record QueryMapItem : Type := mkItem {
  stale : StaleState;
  cache : CacheState
}.

(** ** The derived store [currentWithCaching_] (lib.ts 678-714) *)

Definition currentWithCaching_ (current : QueryResult) (query : QueryMapItem)
  : QueryResult :=
  match current with
  | Idle => current
  | _ =>
    if negb (isStale (stale query)) then
      match current, cache_data (cache query) with
      | Loading, Some d => Ok d
      | _, _ => current
      end
    else
      match hasCached (cache query), cache_data (cache query) with
      | true, Some d => Ok d
      | _, _ => Loading
      end
  end.




(** ** Options of a query (type [UseQueryOptions]) *)

(** The two kinds of dependency a query can declare. *)
Inductive QueryDependency : Type :=
| DepQuery          (* depends on another key of the query map *)
| DepSubscription.  (* depends on an external readable store *)

(** The options of a query that hold both duration functions. *)
Record UseQueryOptions : Type := mkOptions {
  dependencies : list QueryDependency;
  onRetry : nat -> E -> option Z;
  stale_onSubscribeIfUnused : bool;
  stale_duration_fn : QueryResult -> option Z;
  stale_refetchIfUnused : bool;
  cache_duration_fn : D -> option Z
}.

(** The field initialiser of [Query.options] (lib.ts 606-622). *)
Definition default_onRetry (count : nat) (_ : E) : option Z :=
  if bool_decide (3 < count)%nat then None else Some 0.

Definition default_options : UseQueryOptions :=
  {| dependencies := [];
     onRetry := default_onRetry;
     stale_onSubscribeIfUnused := false;
     stale_duration_fn := fun _ => None;
     stale_refetchIfUnused := false;
     cache_duration_fn := fun _ => None |}.

(** ** The class [Query] *)

(** Where the coroutine [fetcher] is suspended; [count] is its local
    variable of that name. *)
Inductive FetcherPc : Type :=
| NotRunning
| AwaitFetch (count : nat)    (* at [await this.fetch()] *)
| AwaitRetry (count : nat).   (* at [await new Promise(... setTimeout ...)] *)

Record Query : Type := mkQuery {
  options : UseQueryOptions;
  isFetching : bool;
  stoppedBy : gset nat;
  query : QueryMapItem;
  dataInUse : bool;
  subscribers : nat;
  current : QueryResult;
  fetcher_pc : FetcherPc;
  (* history, kept for the statements only *)
  fetchCalls : nat;        (* how often [this.fetch()] has been invoked *)
  retryWaits : list Z      (* the delays of the retry timers set so far *)
}.

Definition set_isFetching (b : bool) (q : Query) : Query :=
  mkQuery (options q) b (stoppedBy q) (query q) (dataInUse q) (subscribers q)
          (current q) (fetcher_pc q) (fetchCalls q) (retryWaits q).
Definition set_stoppedBy (s : gset nat) (q : Query) : Query :=
  mkQuery (options q) (isFetching q) s (query q) (dataInUse q) (subscribers q)
          (current q) (fetcher_pc q) (fetchCalls q) (retryWaits q).
Definition set_query (i : QueryMapItem) (q : Query) : Query :=
  mkQuery (options q) (isFetching q) (stoppedBy q) i (dataInUse q) (subscribers q)
          (current q) (fetcher_pc q) (fetchCalls q) (retryWaits q).
Definition set_dataInUse (b : bool) (q : Query) : Query :=
  mkQuery (options q) (isFetching q) (stoppedBy q) (query q) b (subscribers q)
          (current q) (fetcher_pc q) (fetchCalls q) (retryWaits q).
Definition set_subscribers (n : nat) (q : Query) : Query :=
  mkQuery (options q) (isFetching q) (stoppedBy q) (query q) (dataInUse q) n
          (current q) (fetcher_pc q) (fetchCalls q) (retryWaits q).
Definition set_current (r : QueryResult) (q : Query) : Query :=
  mkQuery (options q) (isFetching q) (stoppedBy q) (query q) (dataInUse q)
          (subscribers q) r (fetcher_pc q) (fetchCalls q) (retryWaits q).
Definition set_pc (pc : FetcherPc) (q : Query) : Query :=
  mkQuery (options q) (isFetching q) (stoppedBy q) (query q) (dataInUse q)
          (subscribers q) (current q) pc (fetchCalls q) (retryWaits q).
Definition call_fetch (q : Query) : Query :=
  mkQuery (options q) (isFetching q) (stoppedBy q) (query q) (dataInUse q)
          (subscribers q) (current q) (fetcher_pc q) (S (fetchCalls q)) (retryWaits q).
Definition log_wait (ms : Z) (q : Query) : Query :=
  mkQuery (options q) (isFetching q) (stoppedBy q) (query q) (dataInUse q)
          (subscribers q) (current q) (fetcher_pc q) (fetchCalls q) (retryWaits q ++ [ms]).

(** What subscribers of [query.current] see. *)
Definition exposed (q : Query) : QueryResult :=
  currentWithCaching_ (current q) (query q).

(** The flag [stale.isStale] of the store value of a query. *)
Definition stale_flag (q : Query) : bool := isStale (stale (query q)).

(** A result that is [ok] or [err], neither idle nor loading. *)
Definition settled (r : QueryResult) : bool :=
  match r with
  | Ok _ | Err _ _ => true
  | Idle | Loading => false
  end.

(** The environment flag [browser] of [$app/environment]. *)
Variable browser : bool.

(** *** [fetcher] (lib.ts 756-843) *)

(** The head of [while (true)]: the [stoppedBy] check, then the call of
    [this.fetch()], at whose [await] the coroutine suspends. *)
Definition fetcher_loop (count : nat) (q : Query) : Query :=
  if bool_decide (0 < size (stoppedBy q))%nat then
    set_pc NotRunning (set_isFetching false (set_current Idle q))
  else
    set_pc (AwaitFetch count) (call_fetch q).

(** A call of [fetcher()], up to its first [await] or its [return]. *)
Definition fetcher (q : Query) : Query :=
  if negb browser then q
  else if negb (isStale (stale (query q))) then q
  else if isFetching q then q
  else fetcher_loop 0 (set_current Loading (set_isFetching true q)).

(** *** [markStale] (lib.ts 925-943) *)
Definition markStale (forceRefetch : bool) (q : Query) : Query :=
  let q1 :=
    set_query (mkItem (mkStale None None None true) (cache (query q))) q in
  if forceRefetch || dataInUse q1 || stale_refetchIfUnused (options q1)
  then fetcher q1 else q1.

(** *** [clearCache] (lib.ts 851-864) *)
Definition clearCache (forceRefetch : bool) (q : Query) : Query :=
  let c := cache (query q) in
  let q1 :=
    set_query (mkItem (stale (query q))
                      (mkCache None None None false (cache_data c))) q in
  markStale forceRefetch q1.

(** *** [resetStaleTimer] (lib.ts 898-917); [now] is [Date.now()] *)
Definition resetStaleTimer (now : Z) (cur : QueryResult) (q : Query) : Query :=
  let s := stale (query q) in
  let s' :=
    match stale_duration_fn (options q) cur with
    | None => mkStale None None None (isStale s)
    | Some duration =>
      mkStale (Some (now + duration)) (Some duration) (Some (now + duration))
              (isStale s)
    end in
  set_query (mkItem s' (cache (query q))) q.

(** *** [setData] (lib.ts 870-896) *)
Definition setData (now : Z) (data : D) (q : Query) : Query :=
  let q1 := set_current (Ok data) q in
  let q2 := resetStaleTimer now (Ok data) q1 in
  let c' :=
    match cache_duration_fn (options q2) data with
    | None => mkCache None None None true (Some data)
    | Some duration =>
      mkCache (Some (now + duration)) (Some duration) (Some (now + duration))
              true (Some data)
    end in
  set_query (mkItem (stale (query q2)) c') q2.

(** *** [invalidateAndRefetch] and [refetch] (lib.ts 1059-1070) *)
Definition invalidateAndRefetch (q : Query) : Query := clearCache true q.
Definition refetch (q : Query) : Query := markStale true q.

(** Options that are the defaults but for [stale.duration], which answers
    [duration] milliseconds whatever the result. *)
Definition stale_after (duration : Z) : UseQueryOptions :=
  {| dependencies := [];
     onRetry := default_onRetry;
     stale_onSubscribeIfUnused := false;
     stale_duration_fn := fun _ => Some duration;
     stale_refetchIfUnused := false;
     cache_duration_fn := fun _ => None |}.

(** *** The rest of [fetcher]: what runs when an [await] resumes *)

(** A call either returns or throws; the state is kept in both cases. *)
Inductive Outcome : Type :=
| Returned (q : Query)
| Thrown (q : Query).

(** After the loop (lib.ts 828-842): the consistency check, then the commit
    of the result to the cache. *)
Definition fetcher_finish (now : Z) (q : Query) : Outcome :=
  match current q with
  | Idle | Loading => Thrown q
  | Ok data =>
    Returned (set_pc NotRunning (set_isFetching false (setData now data q)))
  | Err _ _ =>
    Returned (set_pc NotRunning (set_isFetching false (clearCache false q)))
  end.

(** The awaited [this.fetch()] resolves to [result] (lib.ts 784-826). *)
Definition fetcher_on_result (now : Z) (result : FetchResult) (count : nat)
    (q : Query) : Outcome :=
  match result with
  | FRetry err returnError =>
    let count := S count in
    match onRetry (options q) count err with
    | None => fetcher_finish now (set_current (Err false err) q)
    | Some waitDuration =>
      let q1 :=
        if returnError
        then set_current (Err true err) (clearCache false q)
        else set_current Loading q in
      Returned (set_pc (AwaitRetry count) (log_wait waitDuration q1))
    end
  | FErr err => fetcher_finish now (set_current (Err false err) q)
  | FOk data => fetcher_finish now (set_current (Ok data) q)
  end.

(** *** Subscribers of [query.current] (lib.ts 716-745) *)
Definition subscribe (q : Query) : Query :=
  let q1 := set_subscribers (S (subscribers q)) q in
  if bool_decide (subscribers q1 = 1%nat) then
    let q2 := set_dataInUse true q1 in
    if stale_onSubscribeIfUnused (options q2) then markStale false q2
    else if isStale (stale (query q2)) then refetch q2
    else q2
  else q1.

Definition unsubscribe (q : Query) : Query :=
  let q1 := set_subscribers (Nat.pred (subscribers q)) q in
  if bool_decide (subscribers q1 = 0%nat) then set_dataInUse false q1 else q1.

(** *** Dependencies (lib.ts 951-1052) *)

Inductive OnChangeResult : Type :=
| Nothing | Refetch | ClearCacheAndRefetch | Stop.

Inductive OnStaleResult : Type :=
| StaleNothing | BecomeStale | StaleAndClear.

(** What either kind of dependency does with the value [result] that its
    [onChange] callback returned for dependency number [i]. *)
Definition onChange_result (i : nat) (result : OnChangeResult) (q : Query)
  : Query :=
  match result with
  | Nothing => set_stoppedBy (stoppedBy q ∖ {[i]}) q
  | Refetch => refetch (set_stoppedBy (stoppedBy q ∖ {[i]}) q)
  | ClearCacheAndRefetch =>
    invalidateAndRefetch (set_stoppedBy (stoppedBy q ∖ {[i]}) q)
  | Stop => invalidateAndRefetch (set_stoppedBy ({[i]} ∪ stoppedBy q) q)
  end.

(** What a query dependency does with the value its [onStale] returned. *)
Definition onStale_result (result : OnStaleResult) (q : Query) : Query :=
  match result with
  | StaleNothing => q
  | BecomeStale => markStale false q
  | StaleAndClear => clearCache false q
  end.

(** *** The constructor (lib.ts 642-754) *)

(** The fields as the constructor sets them, before the dependencies are
    wired. *)
Definition Query_fields (opts : UseQueryOptions) : Query :=
  {| options := opts;
     isFetching := false;
     stoppedBy := ∅;
     query := mkItem (mkStale None None None true)
                     (mkCache None None None false None);
     dataInUse := false;
     subscribers := 0;
     current := Idle;
     fetcher_pc := NotRunning;
     fetchCalls := 0;
     retryWaits := [] |}.

(** [subscribeToDependencies]: dependency [i] is wired in order.  A query
    dependency first blocks the query ([stoppedBy.add(i)]); subscribing to a
    store calls back at once, so a subscription dependency runs its first
    [onChange], whose answer is [first_onChange i]. *)
Definition wire_dependency (first_onChange : nat -> OnChangeResult)
    (q : Query) (d : nat * QueryDependency) : Query :=
  match d.2 with
  | DepQuery => set_stoppedBy ({[d.1]} ∪ stoppedBy q) q
  | DepSubscription => onChange_result d.1 (first_onChange d.1) q
  end.

Definition subscribeToDependencies (first_onChange : nat -> OnChangeResult)
    (q : Query) : Query :=
  foldl (wire_dependency first_onChange) q
        (imap (fun i d => (i, d)) (dependencies (options q))).

Definition Query_new (opts : UseQueryOptions)
    (first_onChange : nat -> OnChangeResult) : Query :=
  fetcher (subscribeToDependencies first_onChange (Query_fields opts)).

(** ** The query as a transition system *)

(** Everything that can happen to a constructed query: calls of its methods,
    its timers firing, its awaits resuming, its dependencies reporting. *)
Inductive Op : Type :=
| OpFetcher
| OpFetchResolved (now : Z) (result : FetchResult)
| OpRetryElapsed
| OpStaleTimerFired
| OpCacheTimerFired
| OpMarkStale (forceRefetch : bool)
| OpClearCache (forceRefetch : bool)
| OpSetData (now : Z) (data : D)
| OpResetStaleTimer (now : Z) (cur : QueryResult)
| OpSubscribe
| OpUnsubscribe
| OpOnChange (i : nat) (result : OnChangeResult)
| OpOnStale (result : OnStaleResult).

(** One step.  An event that cannot occur in the state at hand (a timer that
    is not pending, an await that is not suspended) leaves it as it is. *)
Definition step (op : Op) (q : Query) : Outcome :=
  match op with
  | OpFetcher => Returned (fetcher q)
  | OpFetchResolved now result =>
    match fetcher_pc q with
    | AwaitFetch count => fetcher_on_result now result count q
    | _ => Returned q
    end
  | OpRetryElapsed =>
    match fetcher_pc q with
    | AwaitRetry count => Returned (fetcher_loop count q)
    | _ => Returned q
    end
  | OpStaleTimerFired =>
    match stale_timeout (stale (query q)) with
    | Some _ => Returned (markStale false q)
    | None => Returned q
    end
  | OpCacheTimerFired =>
    match cache_timeout (cache (query q)) with
    | Some _ => Returned (clearCache false q)
    | None => Returned q
    end
  | OpMarkStale forceRefetch => Returned (markStale forceRefetch q)
  | OpClearCache forceRefetch => Returned (clearCache forceRefetch q)
  | OpSetData now data => Returned (setData now data q)
  | OpResetStaleTimer now cur => Returned (resetStaleTimer now cur q)
  | OpSubscribe => Returned (subscribe q)
  | OpUnsubscribe =>
    if bool_decide (0 < subscribers q)%nat then Returned (unsubscribe q)
    else Returned q
  | OpOnChange i result => Returned (onChange_result i result q)
  | OpOnStale result => Returned (onStale_result result q)
  end.

(** The states a query can be in: the one its constructor leaves, and those
    reached from it by steps that return. *)
Inductive reachable : Query -> Prop :=
| reachable_new opts first_onChange :
    reachable (Query_new opts first_onChange)
| reachable_step q op q' :
    reachable q -> step op q = Returned q' -> reachable q'.

(** *** A fetch run on its own *)

(** The fetch loop driven to its end with nothing else happening in
    between: the [k]-th invocation of the fetch function (counted from 0 over
    the life of the query) resolves to [fetchFn k] at time [clock k], and
    every retry timer elapses.  [fuel] bounds the number of resumptions. *)
Fixpoint run_fetcher (fuel : nat) (clock : nat -> Z)
    (fetchFn : nat -> FetchResult) (q : Query) : option Outcome :=
  match fetcher_pc q with
  | NotRunning => Some (Returned q)
  | AwaitFetch count =>
    match fuel with
    | O => None
    | S fuel' =>
      let k := Nat.pred (fetchCalls q) in
      match fetcher_on_result (clock k) (fetchFn k) count q with
      | Returned q' => run_fetcher fuel' clock fetchFn q'
      | Thrown q' => Some (Thrown q')
      end
    end
  | AwaitRetry count =>
    match fuel with
    | O => None
    | S fuel' => run_fetcher fuel' clock fetchFn (fetcher_loop count q)
    end
  end.

(** *** Notions used in the statements *)

(** Whether the coroutine [fetcher] is suspended at an [await]. *)
Definition pc_running (pc : FetcherPc) : bool :=
  match pc with NotRunning => false | _ => true end.

(** The flag [isFetching] is up exactly while the coroutine is suspended. *)
Definition pc_inv (q : Query) : Prop :=
  isFetching q = pc_running (fetcher_pc q).

(** A fetch is in flight: the coroutine waits for the fetch function, which
    has been invoked [n] times so far, after [count] retries, with the retry
    delays [ws] behind it, and nothing blocks the query. *)
Definition in_flight (opts : UseQueryOptions) (count n : nat) (ws : list Z)
    (q : Query) : Prop :=
  options q = opts /\ fetcher_pc q = AwaitFetch count /\
  isFetching q = true /\ stoppedBy q = ∅ /\
  fetchCalls q = n /\ retryWaits q = ws.


(** The operations that are calls from outside or events of the
    environment, as opposed to the two resumptions of the coroutine. *)
Definition is_resumption (op : Op) : bool :=
  match op with
  | OpFetchResolved _ _ | OpRetryElapsed => true
  | _ => false
  end.

(** ** Key-addressed operations (lib.ts 1077-1126) *)

(** The world of one query map: the value held by the store [queryMap], the
    number of times that store has notified its subscribers, and the [Query]
    objects that the stores in the tree belong to, by identity. *)
Record World : Type := mkWorld {
  queryMap : QmItem;
  notified : nat;
  queries : gmap nat Query
}.

(** [getQuery] followed by a method call on [get(query).class], or by
    nothing when [getQuery] found no query.  The method call is that of a
    query on its own. *)
Definition on_query (key : list string) (method : Query -> Query) (w : World)
  : World :=
  let r := getQuery key (queryMap w) in
  match r.2 with
  | None => mkWorld r.1 (notified w) (queries w)
  | Some id => mkWorld r.1 (notified w) (alter method id (queries w))
  end.

Definition invalidateAndRefetch_key (key : list string) : World -> World :=
  on_query key invalidateAndRefetch.
Definition invalidate_key (key : list string) : World -> World :=
  on_query key (clearCache false).
Definition refetch_key (key : list string) : World -> World :=
  on_query key refetch.
Definition markStale_key (key : list string) : World -> World :=
  on_query key (markStale false).
Definition updateData_key (now : Z) (key : list string) (data : D)
  : World -> World :=
  on_query key (setData now data).

End QueryModel.

Arguments QueryResult : clear implicits.
Arguments FetchResult : clear implicits.
Arguments CacheState : clear implicits.
Arguments QueryMapItem : clear implicits.

Arguments UseQueryOptions : clear implicits.
Arguments Query : clear implicits.
Arguments Outcome : clear implicits.
Arguments Op : clear implicits.
Arguments World : clear implicits.

(** ** Concrete queries and registries *)

(** A query of numbers with textual errors, as its constructor leaves it in
    a browser: no dependency, the default options. *)
Definition fresh_query : Query nat string :=
  Query_new true default_options (fun _ => Nothing).

(** The same query before its constructor calls [fetcher]. *)
Definition unfetched_query : Query nat string :=
  Query_fields default_options.

(** Options whose retry policy answers 0, 0 and then [false]. *)
Definition two_retries : UseQueryOptions nat string :=
  {| dependencies := [];
     onRetry := fun count _ => if (count <? 3)%nat then Some 0 else None;
     stale_onSubscribeIfUnused := false;
     stale_duration_fn := fun _ => None;
     stale_refetchIfUnused := false;
     cache_duration_fn := fun _ => None |}.

(** A fetch function that is always offline. *)
Definition always_retry (_ : nat) : FetchResult nat string :=
  FRetry "offline"%string false.

(** A registry that holds the query [user] and nothing else. *)
Definition small_registry : QmItem :=
  Node None {[ "user"%string := Node (Some 0%nat) ∅ ]}.

(** ** [createQueryMap] and [useQuery] (lib.ts 511-568) *)

Section RegistryModel.

Context {D E : Type}.
Variable browser : bool.

(** A query map in use: its world, and the keys that subscribers of the
    store [queryMap] look up on every notification.  Each query dependency
    of each constructed query subscribes to the store ([addDependencyQuery],
    lib.ts 1002-1010) with a callback that calls [getQuery] on the key of the
    dependency; the subscription is never given up. *)
Record Registry : Type := mkRegistry {
  world : World D E;
  watchers : list (list string)
}.

(** [createQueryMap]: the store starts out as [writable({})]. *)
Definition createQueryMap : Registry :=
  mkRegistry (mkWorld (Node None ∅) 0 ∅) [].

(** The callbacks of the subscribers of [queryMap], run in order: each
    calls [getQuery] on its key and thereby writes to the tree. *)
Definition run_watchers (keys : list (list string)) (tree : QmItem) : QmItem :=
  foldl (fun t k => (getQuery k t).1) tree keys.

(** The keys of the query dependencies among the options, in order;
    [dep_key i] is the key of dependency [i]. *)
Definition query_dependency_keys (dep_key : nat -> list string)
    (opts : UseQueryOptions D E) : list (list string) :=
  omap (fun d : nat * QueryDependency =>
          match d.2 with
          | DepQuery => Some (dep_key d.1)
          | DepSubscription => None
          end)
       (imap (fun i d => (i, d)) (dependencies opts)).

(** The callback of [queryMap.update] in [useQuery] (lib.ts 556-565): walk
    [key.slice(0, -1)] without creating anything, then assign the store to
    the last segment.  Reading a property of [undefined] throws, which is
    [None]; the last segment of an empty key is [undefined], which names
    the property ["undefined"]. *)
Fixpoint assign_at (key : list string) (v : QmItem) (item : QmItem)
  : option QmItem :=
  match key with
  | [] =>
    Some (Node (item_store item) (<["undefined"%string := v]> (item_props item)))
  | [last] =>
    Some (Node (item_store item) (<[last := v]> (item_props item)))
  | subKey :: rest =>
    match item_props item !! subKey with
    | None => None
    | Some c =>
      match assign_at rest v c with
      | None => None
      | Some c' =>
        Some (Node (item_store item) (<[subKey := c']> (item_props item)))
      end
    end
  end.

(** [useQuery]: the registry afterwards and the query whose [current] is
    handed back; [None] when the update callback throws.  A new query gets
    an identity not in use.  Its constructor subscribes its query
    dependencies to the store, which calls each of their callbacks once at
    once; the update of the store then calls the callbacks of all
    subscribers. *)
Definition useQuery (key : list string) (opts : UseQueryOptions D E)
    (first_onChange : nat -> OnChangeResult) (dep_key : nat -> list string)
    (r : Registry) : option (Registry * nat) :=
  let w := world r in
  let g := getQuery key (queryMap w) in
  match g.2 with
  | Some id => Some (mkRegistry (mkWorld g.1 (notified w) (queries w))
                                (watchers r), id)
  | None =>
    let id := fresh (dom (queries w)) in
    let query := Query_new browser opts first_onChange in
    let deps := query_dependency_keys dep_key opts in
    let tree1 := run_watchers deps g.1 in
    match assign_at key (Node (Some id) ∅) tree1 with
    | None => None
    | Some tree2 =>
      let ws := watchers r ++ deps in
      Some (mkRegistry (mkWorld (run_watchers ws tree2) (S (notified w))
                                (<[id := query]> (queries w)))
                       ws, id)
    end
  end.

(** A key-addressed operation on a registry. *)
Definition on_registry (op : World D E -> World D E) (r : Registry)
  : Registry :=
  mkRegistry (op (world r)) (watchers r).

(** The query a key leads to, when it leads to one. *)
Definition find_query (key : list string) (tree : QmItem) : option nat :=
  match node_at key tree with
  | Some n => item_store n
  | None => None
  end.

End RegistryModel.

Arguments Registry : clear implicits.

(** ** Further notions about queries *)

Section QueryNotions.

Context {D E : Type}.

(** The results [current] can hold while a fetch is in flight. *)
Definition flying (r : QueryResult D E) : Prop :=
  match r with
  | Loading | Err true _ | Ok _ => True
  | Idle | Err false _ => False
  end.

(** [isFetching] and [current] tell the same story as the coroutine:
    the flag is up exactly while the coroutine is suspended; loading and an
    error that is being retried occur only in flight, idle and a final error
    only at rest. *)
Definition flight_inv (q : Query D E) : Prop :=
  isFetching q = pc_running (fetcher_pc q) /\
  match current q with
  | Loading | Err true _ => isFetching q = true
  | Idle | Err false _ => isFetching q = false
  | Ok _ => True
  end.

(** The timer fields of a store value go together: a timer is pending
    exactly when its date is set, for the date it is due; a date is set
    exactly when a duration is; and a cache that is flagged absent has no
    date. *)
Definition timers_inv (i : QueryMapItem D) : Prop :=
  stale_timeout (stale i) = turnsStaleAt (stale i) /\
  (turnsStaleAt (stale i) = None <-> stale_duration (stale i) = None) /\
  cache_timeout (cache i) = expiresAt (cache i) /\
  (expiresAt (cache i) = None <-> cache_duration (cache i) = None) /\
  (hasCached (cache i) = false -> expiresAt (cache i) = None).

(** A query at rest that has never fetched. *)
Definition never_fetched (q : Query D E) : Prop :=
  fetchCalls q = 0%nat /\ retryWaits q = [] /\
  isFetching q = false /\ fetcher_pc q = NotRunning.

(** What holds of a query outside the browser. *)
Definition server_inv (q : Query D E) : Prop :=
  never_fetched q /\ (current q = Idle \/ exists d, current q = Ok d).

(** [dataInUse] is up exactly while somebody subscribes. *)
Definition subs_inv (q : Query D E) : Prop :=
  dataInUse q = bool_decide (0 < subscribers q)%nat.

(** Two states with the same subscribers. *)
Definition same_subs (q q' : Query D E) : Prop :=
  dataInUse q' = dataInUse q /\ subscribers q' = subscribers q.

(** A query that has not fetched and shows idle. *)
Definition idle_unfetched (q : Query D E) : Prop :=
  never_fetched q /\ current q = Idle.

End QueryNotions.

(** ** Further notions about option objects *)

(** The properties that [recursiveRemoveUndefined] leaves of an object,
    and the elements it leaves of an array. *)
Definition cleaned_props (props : list (string * JsValue))
  : list (string * JsValue) :=
  match recursiveRemoveUndefined (JObject props) with
  | JObject cleaned => cleaned
  | _ => []
  end.

Definition cleaned_elems (elems : list JsValue) : list JsValue :=
  match recursiveRemoveUndefined (JArray elems) with
  | JArray cleaned => cleaned
  | _ => []
  end.

Definition is_undefined (v : JsValue) : bool :=
  match v with JUndefined => true | _ => false end.

(** No object inside the value, at any depth, has a property that is
    [undefined].  Elements of arrays may be: deleting one leaves a hole. *)
Fixpoint defined_throughout (v : JsValue) : bool :=
  match v with
  | JObject props =>
    forallb (fun kv : string * JsValue =>
               negb (is_undefined kv.2) && defined_throughout kv.2) props
  | JArray elems => forallb defined_throughout elems
  | _ => true
  end.

(** ** The callback of a subscription dependency (lib.ts 962-989) *)

Section DependencyCallback.

Context {D E T : Type} `{EqDecision T}.
Variable browser : bool.

(** The callback that [addDependencySubscription] subscribes to the store
    of dependency [i].  Its variable [last] starts as [QUERY_INIT], which is
    [None] and equal to no value; [deepEqual] is equality of [T].  The
    callback is given the new value of the store and acts on the query. *)
Definition subscription_changed
    (onChange : option T -> T -> OnChangeResult) (i : nat)
    (st : option T * Query D E) (current : T) : option T * Query D E :=
  if decide (st.1 = Some current) then st
  else (Some current,
        onChange_result browser i (onChange st.1 current) st.2).

(** A sequence of values with repetitions of the value just before
    removed. *)
Fixpoint without_repeats (last : option T) (values : list T) : list T :=
  match values with
  | [] => []
  | v :: rest =>
    if decide (last = Some v) then without_repeats last rest
    else v :: without_repeats (Some v) rest
  end.

End DependencyCallback.

(** ** Calls that can throw (lib.ts 881, 903) *)

(** [UseQueryOptions] above is the type of options that hold both duration
    functions, as the defaults do.  The merge of the constructor is one level
    deep, so options of a caller that name a part of the group [stale] or
    [cache] leave that group without its [duration]; the calls
    [this.options.stale.duration(...)] in [resetStaleTimer] and
    [this.options.cache.duration(...)] in [setData] then throw a
    [TypeError].  Options are not changed after the constructor, so which of
    the two functions they hold is fixed for the life of a query.  A duration
    field of [UseQueryOptions] that stands for a function the options lack is
    not consulted by the calls below. *)
Record DurationFns : Type := mkDurationFns {
  has_stale_duration : bool;  (* [options.stale.duration] is a function *)
  has_cache_duration : bool   (* [options.cache.duration] is a function *)
}.

Definition is_function (v : JsValue) : bool :=
  match v with JFunction _ => true | _ => false end.

(** Read off the effective options object. *)
Definition duration_fns_of (effective : list (string * JsValue))
  : DurationFns :=
  {| has_stale_duration :=
       is_function (js_path ["stale"; "duration"]%string (JObject effective));
     has_cache_duration :=
       is_function (js_path ["cache"; "duration"]%string (JObject effective)) |}.

Section ThrowingCalls.

Context {D E : Type}.

(** How a call ends; the state of the query is kept in all cases. *)
Inductive Completion : Type :=
| Normal (q : Query D E)
| ErrorThrown (q : Query D E)      (* the [Error] of the check in [fetcher] *)
| TypeErrorThrown (q : Query D E). (* a duration function that is [undefined] *)

Definition state_after (c : Completion) : Query D E :=
  match c with Normal q | ErrorThrown q | TypeErrorThrown q => q end.

Definition completion_of (o : Outcome D E) : Completion :=
  match o with
  | Returned q => Normal q
  | Thrown q => ErrorThrown q
  end.

Variable browser : bool.
Variable fns : DurationFns.

(** A call of [resetStaleTimer] (lib.ts 898-917).  The callback of
    [query.update] first cancels the pending timer.  Without the function
    [stale.duration] the next line throws: no field is written, the store
    does not notify, and no staleness timer is pending any more (the field
    [timeout] keeps the cancelled handle, which nothing reads). *)
Definition resetStaleTimer_call (now : Z) (cur : QueryResult D E)
    (q : Query D E) : Completion :=
  if has_stale_duration fns then Normal (resetStaleTimer now cur q)
  else
    let s := stale (query q) in
    TypeErrorThrown
      (set_query (mkItem (mkStale (turnsStaleAt s) (stale_duration s) None
                                  (isStale s))
                         (cache (query q))) q).

(** A call of [setData] (lib.ts 870-896): [current] is set, then
    [resetStaleTimer] runs, then the callback of [query.update] writes
    [data] and [hasCached], cancels the pending cache timer and calls
    [cache.duration].  Without that function the call throws there: the
    fields [duration] and [expiresAt] keep their old values, no cache timer
    is pending, and the store does not notify, so that subscribers are not
    shown the new store value until something else notifies. *)
Definition setData_call (now : Z) (data : D) (q : Query D E) : Completion :=
  let q1 := set_current (Ok data) q in
  match resetStaleTimer_call now (Ok data) q1 with
  | Normal q2 =>
    let c := cache (query q2) in
    if has_cache_duration fns then
      let c' :=
        match cache_duration_fn (options q2) data with
        | None => mkCache None None None true (Some data)
        | Some duration =>
          mkCache (Some (now + duration)) (Some duration)
                  (Some (now + duration)) true (Some data)
        end in
      Normal (set_query (mkItem (stale (query q2)) c') q2)
    else
      TypeErrorThrown
        (set_query (mkItem (stale (query q2))
                           (mkCache (expiresAt c) (cache_duration c) None true
                                    (Some data))) q2)
  | thrown => thrown
  end.

(** The awaited [this.fetch()] resolves (lib.ts 784-842).  Only the [ok]
    result leads to a duration function, through [setData]; an exception
    ends the coroutine before [this.isFetching = false]. *)
Definition fetcher_on_result_call (now : Z) (result : FetchResult D E)
    (count : nat) (q : Query D E) : Completion :=
  match result with
  | FOk data =>
    match setData_call now data (set_current (Ok data) q) with
    | Normal q' => Normal (set_pc NotRunning (set_isFetching false q'))
    | ErrorThrown q' => ErrorThrown (set_pc NotRunning q')
    | TypeErrorThrown q' => TypeErrorThrown (set_pc NotRunning q')
    end
  | _ => completion_of (fetcher_on_result browser now result count q)
  end.

(** One step of a query whose options hold the duration functions [fns]. *)
Definition step_call (op : Op D E) (q : Query D E) : Completion :=
  match op with
  | OpFetchResolved now result =>
    match fetcher_pc q with
    | AwaitFetch count => fetcher_on_result_call now result count q
    | _ => Normal q
    end
  | OpSetData now data => setData_call now data q
  | OpResetStaleTimer now cur => resetStaleTimer_call now cur q
  | _ => completion_of (step browser op q)
  end.

(** The states of such a query: an exception leaves the query in the state
    it was thrown in, and the query lives on. *)
Inductive reachable_call : Query D E -> Prop :=
| reachable_call_new opts first_onChange :
    reachable_call (Query_new browser opts first_onChange)
| reachable_call_step q op :
    reachable_call q -> reachable_call (state_after (step_call op q)).

(** A sequence of steps. *)
Definition steps_call (ops : list (Op D E)) (q : Query D E) : Query D E :=
  foldl (fun q op => state_after (step_call op q)) q ops.

(** [run_fetcher], with the calls that can throw. *)
Fixpoint run_fetcher_call (fuel : nat) (clock : nat -> Z)
    (fetchFn : nat -> FetchResult D E) (q : Query D E) : option Completion :=
  match fetcher_pc q with
  | NotRunning => Some (Normal q)
  | AwaitFetch count =>
    match fuel with
    | O => None
    | S fuel' =>
      let k := Nat.pred (fetchCalls q) in
      match fetcher_on_result_call (clock k) (fetchFn k) count q with
      | Normal q' => run_fetcher_call fuel' clock fetchFn q'
      | thrown => Some thrown
      end
    end
  | AwaitRetry count =>
    match fuel with
    | O => None
    | S fuel' =>
      run_fetcher_call fuel' clock fetchFn (fetcher_loop count q)
    end
  end.

End ThrowingCalls.

Arguments Completion : clear implicits.

(** *** Notions about queries whose calls can throw *)

Section ThrowingNotions.

Context {D E : Type}.

(** A query whose coroutine [fetcher] has ended while [isFetching] is still
    up, with data in [current]. *)
Definition stalled (q : Query D E) : Prop :=
  isFetching q = true /\ fetcher_pc q = NotRunning /\
  exists d, current q = Ok d.

(** Without a duration function its date is never set. *)
Definition dates_inv (fns : DurationFns) (i : QueryMapItem D) : Prop :=
  timers_inv i /\
  (has_stale_duration fns = false -> turnsStaleAt (stale i) = None) /\
  (has_cache_duration fns = false -> expiresAt (cache i) = None).

(** The steps that call a duration function. *)
Definition calls_duration (op : Op D E) : bool :=
  match op with
  | OpSetData _ _ | OpResetStaleTimer _ _ | OpFetchResolved _ (FOk _) => true
  | _ => false
  end.

End ThrowingNotions.

(** ** More concrete queries and registries *)

(** The query map that holds the query [user], with its [Query] object. *)
Definition one_query_registry : Registry nat string :=
  mkRegistry (mkWorld small_registry 0 {[ 0%nat := fresh_query ]}) [].

(** A query map in which the key [a], [b] leads to a query. *)
Definition nested_registry : Registry nat string :=
  mkRegistry
    (mkWorld (Node None {[ "a"%string :=
                Node None {[ "b"%string := Node (Some 0%nat) ∅ ]} ]})
             0 {[ 0%nat := fresh_query ]})
    [].

(** A query that a dependency has stopped. *)
Definition blocked_query : Query nat string :=
  onChange_result true 0 Stop unfetched_query.

(** A query with cached data, its fetch in flight. *)
Definition cached_query : Query nat string := setData 0 7%nat fresh_query.

(** The defaults, but with a subscription dependency and a query
    dependency. *)
Definition gated_options : UseQueryOptions nat string :=
  {| dependencies := [DepSubscription; DepQuery];
     onRetry := default_onRetry;
     stale_onSubscribeIfUnused := false;
     stale_duration_fn := fun _ => None;
     stale_refetchIfUnused := false;
     cache_duration_fn := fun _ => None |}.


(** The options object of a caller who names one field of the group
    [stale], and what the constructor makes of it. *)
Definition one_stale_field : JsValue :=
  JObject [("stale", JObject [("onSubscribeIfUnused", JBool true)])]%string.

Definition default_fns : DurationFns :=
  duration_fns_of (Query_options (JObject [])).

Definition lossy_fns : DurationFns :=
  duration_fns_of (Query_options one_stale_field).

(** The fields of those options.  The group [stale] holds
    [onSubscribeIfUnused] alone: [refetchIfUnused] is [undefined], which
    tests as false, and [duration] is not there, so that its field here is
    not consulted. *)
Definition lossy_options : UseQueryOptions nat string :=
  {| dependencies := [];
     onRetry := default_onRetry;
     stale_onSubscribeIfUnused := true;
     stale_duration_fn := fun _ => None;
     stale_refetchIfUnused := false;
     cache_duration_fn := fun _ => None |}.

(** A query with those options, before and after its constructor calls
    [fetcher] in a browser. *)
Definition lossy_unfetched : Query nat string := Query_fields lossy_options.

Definition lossy_query : Query nat string :=
  Query_new true lossy_options (fun _ => Nothing).

(** A fetch function that always succeeds. *)
Definition always_seven (_ : nat) : FetchResult nat string := FOk 7%nat.

(** * Properties *)

(** ** The exposed result *)

Section ExposedResult.

Context {D E : Type}.
Implicit Types (cur r : QueryResult D E) (item : QueryMapItem D).





End ExposedResult.

(** ** The staleness flag *)

Section Staleness.

Context {D E : Type}.
Variable browser : bool.
Implicit Types (q : Query D E) (op : Op D E).

(** [fetcher] never writes to the store value. *)
Lemma query_fetcher_loop count q : query (fetcher_loop count q) = query q.
Proof. unfold fetcher_loop. by case_bool_decide. Qed.

Lemma query_fetcher q : query (fetcher browser q) = query q.
Proof.
  unfold fetcher. repeat case_match; try done. by rewrite query_fetcher_loop.
Qed.

Lemma stale_flag_markStale force q :
  stale_flag (markStale browser force q) = true.
Proof.
  unfold stale_flag, markStale. case_match; [by rewrite query_fetcher | done].
Qed.

Lemma stale_flag_clearCache force q :
  stale_flag (clearCache browser force q) = true.
Proof. unfold clearCache. apply stale_flag_markStale. Qed.

Lemma stale_flag_resetStaleTimer now cur q :
  stale_flag (resetStaleTimer now cur q) = stale_flag q.
Proof. unfold stale_flag, resetStaleTimer. simpl. by case_match. Qed.

Lemma stale_flag_setData now data q :
  stale_flag (setData now data q) = stale_flag q.
Proof.
  unfold setData. unfold stale_flag at 1. simpl.
  apply (stale_flag_resetStaleTimer now (Ok data) (set_current (Ok data) q)).
Qed.

Lemma stale_flag_fetcher_finish now q q' :
  fetcher_finish browser now q = Returned q' ->
  stale_flag q = true -> stale_flag q' = true.
Proof.
  unfold fetcher_finish. intros H Hq.
  destruct (current q) eqn:Hc; try done; injection H as <-.
  - apply (stale_flag_clearCache false q).
  - change (stale_flag (setData now data q) = true).
    by rewrite stale_flag_setData.
Qed.

Lemma stale_flag_fetcher_on_result now result count q q' :
  fetcher_on_result browser now result count q = Returned q' ->
  stale_flag q = true -> stale_flag q' = true.
Proof.
  unfold fetcher_on_result. intros H Hq.
  destruct result as [err [|]|err|data].
  - destruct (onRetry _ _ _); [| by eapply stale_flag_fetcher_finish].
    injection H as <-. apply (stale_flag_clearCache false q).
  - destruct (onRetry _ _ _); [| by eapply stale_flag_fetcher_finish].
    by injection H as <-.
  - by eapply stale_flag_fetcher_finish.
  - by eapply stale_flag_fetcher_finish.
Qed.

Lemma stale_flag_onChange_result i result q :
  stale_flag q = true -> stale_flag (onChange_result browser i result q) = true.
Proof.
  intros Hq. destruct result; simpl; try done.
  - apply stale_flag_markStale.
  - apply stale_flag_clearCache.
  - apply stale_flag_clearCache.
Qed.

(** No step of the transition system lowers the flag. *)
Lemma step_keeps_stale_flag op q q' :
  step browser op q = Returned q' ->
  stale_flag q = true -> stale_flag q' = true.
Proof.
  intros H Hq. destruct op; simpl in H.
  - injection H as <-. unfold stale_flag. by rewrite query_fetcher.
  - destruct (fetcher_pc q); try (by injection H as <-).
    by eapply stale_flag_fetcher_on_result.
  - destruct (fetcher_pc q); try (by injection H as <-).
    injection H as <-. unfold stale_flag. by rewrite query_fetcher_loop.
  - destruct (stale_timeout _); injection H as <-;
      [apply stale_flag_markStale | done].
  - destruct (cache_timeout _); injection H as <-;
      [apply stale_flag_clearCache | done].
  - injection H as <-. apply stale_flag_markStale.
  - injection H as <-. apply stale_flag_clearCache.
  - injection H as <-. by rewrite stale_flag_setData.
  - injection H as <-. by rewrite stale_flag_resetStaleTimer.
  - injection H as <-. unfold subscribe. repeat case_match; try done.
    all: apply stale_flag_markStale.
  - case_bool_decide; injection H as <-; [| done].
    unfold unsubscribe. by case_bool_decide.
  - injection H as <-. by apply stale_flag_onChange_result.
  - injection H as <-. destruct result; simpl; try done.
    + apply stale_flag_markStale.
    + apply stale_flag_clearCache.
Qed.

Lemma stale_flag_subscribeToDependencies first_onChange q :
  stale_flag q = true ->
  stale_flag (subscribeToDependencies browser first_onChange q) = true.
Proof.
  unfold subscribeToDependencies.
  generalize (imap (fun i d => (i, d)) (dependencies (options q))).
  intros deps. revert q.
  induction deps as [|[i d] deps IH]; intros q Hq; [done |].
  simpl. apply IH. unfold wire_dependency. simpl.
  destruct d; [done | by apply stale_flag_onChange_result].
Qed.

Lemma reachable_stale_flag q : reachable browser q -> stale_flag q = true.
Proof.
  induction 1 as [opts oc | q op q' _ IH Hstep].
  - unfold Query_new, stale_flag. rewrite query_fetcher.
    by apply stale_flag_subscribeToDependencies.
  - by eapply step_keeps_stale_flag.
Qed.

(** C9. The flag [stale.isStale] starts out true and nothing lowers it:
    whatever state a query has reached, the flag is up, every further step
    leaves it up, and the exposed result is computed by the stale branch of
    the derivation alone. *)
Theorem C9_isStale_never_lowered q :
  reachable browser q ->
  isStale (stale (query q)) = true /\
  (forall op q', step browser op q = Returned q' ->
                 isStale (stale (query q')) = true) /\
  exposed q =
    match current q with
    | Idle => Idle
    | _ => match hasCached (cache (query q)), cache_data (cache (query q)) with
           | true, Some d => Ok d
           | _, _ => Loading
           end
    end.
Proof.
  intros Hq. pose proof (reachable_stale_flag q Hq) as Hs.
  split; [exact Hs |]. split.
  - intros op q' Hstep. by apply (step_keeps_stale_flag op q q').
  - unfold exposed, currentWithCaching_. unfold stale_flag in Hs.
    rewrite Hs. by destruct (current q).
Qed.

(** *** The cache flag and the cached value *)











End Staleness.

(** ** The fetch loop *)

Section FetchLoop.

Context {D E : Type}.
Variable browser : bool.
Implicit Types (q : Query D E) (op : Op D E).

Lemma fetcher_loop_stopped count q :
  stoppedBy q <> ∅ ->
  fetcher_loop count q =
  set_pc NotRunning (set_isFetching false (set_current Idle q)).
Proof.
  intros Hne. unfold fetcher_loop. case_bool_decide as Hs; [done |].
  exfalso. apply Hne. apply leibniz_equiv. apply size_empty_iff. lia.
Qed.

Lemma fetcher_loop_free count q :
  stoppedBy q = ∅ ->
  fetcher_loop count q = set_pc (AwaitFetch count) (call_fetch q).
Proof.
  intros He. unfold fetcher_loop. rewrite He, size_empty.
  by case_bool_decide; [lia |].
Qed.

(** While a fetch is in flight a further call of [fetcher] does nothing. *)
Lemma fetcher_busy q : isFetching q = true -> fetcher browser q = q.
Proof. intros H. unfold fetcher. rewrite H. by repeat case_match. Qed.

Lemma markStale_busy force q :
  isFetching q = true ->
  markStale browser force q =
  set_query (mkItem (mkStale None None None true) (cache (query q))) q.
Proof.
  intros H. unfold markStale. case_match; [| done]. by apply fetcher_busy.
Qed.

Lemma clearCache_busy force q :
  isFetching q = true ->
  clearCache browser force q =
  set_query
    (mkItem (mkStale None None None true)
            (mkCache None None None false (cache_data (cache (query q))))) q.
Proof. intros H. unfold clearCache. by rewrite markStale_busy. Qed.

(** [stoppedBy] is written by the dependency callbacks only. *)
Lemma stoppedBy_fetcher q : stoppedBy (fetcher browser q) = stoppedBy q.
Proof.
  unfold fetcher, fetcher_loop. by repeat case_match.
Qed.

Lemma stoppedBy_markStale force q :
  stoppedBy (markStale browser force q) = stoppedBy q.
Proof. unfold markStale. case_match; [by rewrite stoppedBy_fetcher | done]. Qed.

Lemma stoppedBy_clearCache force q :
  stoppedBy (clearCache browser force q) = stoppedBy q.
Proof. unfold clearCache. by rewrite stoppedBy_markStale. Qed.

(** *** The coroutine and the flag [isFetching] go together *)

Lemma pc_inv_fetcher_loop count q :
  isFetching q = true -> pc_inv (fetcher_loop count q).
Proof. intros H. unfold fetcher_loop, pc_inv. by case_bool_decide. Qed.

Lemma pc_inv_fetcher q : pc_inv q -> pc_inv (fetcher browser q).
Proof.
  intros H. unfold fetcher. repeat case_match; try done.
  by apply pc_inv_fetcher_loop.
Qed.

Lemma pc_inv_markStale force q : pc_inv q -> pc_inv (markStale browser force q).
Proof.
  intros H. unfold markStale. case_match; [| done]. by apply pc_inv_fetcher.
Qed.

Lemma pc_inv_clearCache force q :
  pc_inv q -> pc_inv (clearCache browser force q).
Proof. intros H. unfold clearCache. by apply pc_inv_markStale. Qed.

Lemma pc_inv_onChange_result i result q :
  pc_inv q -> pc_inv (onChange_result browser i result q).
Proof.
  intros H. destruct result; simpl; try done.
  - by apply pc_inv_markStale.
  - by apply pc_inv_clearCache.
  - by apply pc_inv_clearCache.
Qed.

Lemma pc_inv_fetcher_on_result now result count q q' :
  isFetching q = true ->
  fetcher_on_result browser now result count q = Returned q' -> pc_inv q'.
Proof.
  unfold fetcher_on_result, fetcher_finish. intros Hf H.
  destruct result as [err b|err|data]; simpl in H.
  - destruct (onRetry _ _ _); [| by injection H as <-].
    injection H as <-. unfold pc_inv. simpl.
    destruct b; [| done]. by rewrite clearCache_busy.
  - by injection H as <-.
  - by injection H as <-.
Qed.

Lemma step_keeps_pc_inv op q q' :
  step browser op q = Returned q' -> pc_inv q -> pc_inv q'.
Proof.
  intros H Hq. destruct op; simpl in H.
  - injection H as <-. by apply pc_inv_fetcher.
  - destruct (fetcher_pc q) eqn:Hpc; try (by injection H as <-).
    eapply pc_inv_fetcher_on_result; [| exact H].
    unfold pc_inv in Hq. by rewrite Hpc in Hq.
  - destruct (fetcher_pc q) eqn:Hpc; try (by injection H as <-).
    injection H as <-. apply pc_inv_fetcher_loop.
    unfold pc_inv in Hq. by rewrite Hpc in Hq.
  - destruct (stale_timeout _); injection H as <-;
      [by apply pc_inv_markStale | done].
  - destruct (cache_timeout _); injection H as <-;
      [by apply pc_inv_clearCache | done].
  - injection H as <-. by apply pc_inv_markStale.
  - injection H as <-. by apply pc_inv_clearCache.
  - by injection H as <-.
  - injection H as <-. unfold resetStaleTimer. by case_match.
  - injection H as <-. unfold subscribe. repeat case_match; try done.
    all: by apply pc_inv_markStale.
  - case_bool_decide; injection H as <-; [| done].
    unfold unsubscribe. by case_bool_decide.
  - injection H as <-. by apply pc_inv_onChange_result.
  - injection H as <-. destruct result; simpl; try done.
    + by apply pc_inv_markStale.
    + by apply pc_inv_clearCache.
Qed.

Lemma pc_inv_subscribeToDependencies first_onChange q :
  pc_inv q -> pc_inv (subscribeToDependencies browser first_onChange q).
Proof.
  unfold subscribeToDependencies.
  generalize (imap (fun i d => (i, d)) (dependencies (options q))).
  intros deps. revert q.
  induction deps as [|[i d] deps IH]; intros q Hq; [done |].
  simpl. apply IH. unfold wire_dependency. simpl.
  destruct d; [done | by apply pc_inv_onChange_result].
Qed.

Lemma reachable_pc_inv q : reachable browser q -> pc_inv q.
Proof.
  induction 1 as [opts oc | q op q' _ IH Hstep].
  - apply pc_inv_fetcher. by apply pc_inv_subscribeToDependencies.
  - by eapply step_keeps_pc_inv.
Qed.

End FetchLoop.

(** ** Runs of the retry loop *)

Section Retries.

Context {D E : Type}.
Variable browser : bool.
Variable clock : nat -> Z.
Variable fetchFn : nat -> FetchResult D E.
Implicit Types (q : Query D E) (opts : UseQueryOptions D E).

Lemma run_fetcher_done fuel q :
  fetcher_pc q = NotRunning ->
  run_fetcher browser fuel clock fetchFn q = Some (Returned q).
Proof. intros H. destruct fuel; simpl; by rewrite H. Qed.

Lemma run_fetcher_resolve fuel count q :
  fetcher_pc q = AwaitFetch count ->
  run_fetcher browser (S fuel) clock fetchFn q =
  match fetcher_on_result browser (clock (Nat.pred (fetchCalls q)))
                          (fetchFn (Nat.pred (fetchCalls q))) count q with
  | Returned q' => run_fetcher browser fuel clock fetchFn q'
  | Thrown q' => Some (Thrown q')
  end.
Proof. intros H. simpl. by rewrite H. Qed.

Lemma run_fetcher_elapse fuel count q :
  fetcher_pc q = AwaitRetry count ->
  run_fetcher browser (S fuel) clock fetchFn q =
  run_fetcher browser fuel clock fetchFn (fetcher_loop count q).
Proof. intros H. simpl. by rewrite H. Qed.

(** Entering the loop: the guards pass and nothing blocks the query. *)
Lemma fetcher_enters q :
  browser = true -> stale_flag q = true -> isFetching q = false ->
  stoppedBy q = ∅ ->
  in_flight (options q) 0 (S (fetchCalls q)) (retryWaits q) (fetcher browser q).
Proof.
  intros -> Hs Hf He. unfold fetcher, stale_flag in *. rewrite Hs, Hf. simpl.
  rewrite fetcher_loop_free by done. by repeat split.
Qed.

(** One round: the fetch asks for a retry, the policy grants a delay, the
    timer elapses, and the fetch function is invoked again. *)
Lemma retry_round opts count n ws q now e b w :
  in_flight opts count n ws q ->
  onRetry opts (S count) e = Some w ->
  exists q1,
    fetcher_on_result browser now (FRetry e b) count q = Returned q1 /\
    fetcher_pc q1 = AwaitRetry (S count) /\
    in_flight opts (S count) (S n) (ws ++ [w]) (fetcher_loop (S count) q1).
Proof.
  intros (Ho & Hpc & Hf & He & Hn & Hw) Hr.
  unfold fetcher_on_result. rewrite Ho, Hr.
  eexists. split; [reflexivity |]. split; [reflexivity |].
  rewrite fetcher_loop_free.
  - destruct b; [rewrite clearCache_busy by done |].
    all: unfold in_flight; simpl; rewrite ?Ho, ?Hf, ?He, ?Hn, ?Hw; done.
  - destruct b; [rewrite clearCache_busy by done |]; by simpl.
Qed.

Lemma run_retry_round opts count n ws q e b w :
  in_flight opts count n ws q ->
  fetchFn (Nat.pred n) = FRetry e b ->
  onRetry opts (S count) e = Some w ->
  exists q2,
    in_flight opts (S count) (S n) (ws ++ [w]) q2 /\
    forall fuel,
      run_fetcher browser (S (S fuel)) clock fetchFn q =
      run_fetcher browser fuel clock fetchFn q2.
Proof.
  intros Hq Hfn Hr.
  destruct (retry_round opts count n ws q (clock (Nat.pred n)) e b w Hq Hr)
    as (q1 & Hres & Hpc1 & Hq2).
  exists (fetcher_loop (S count) q1). split; [exact Hq2 |].
  intros fuel. destruct Hq as (_ & Hpc & _ & _ & Hn & _).
  rewrite (run_fetcher_resolve _ count) by done.
  rewrite Hn, Hfn, Hres. by rewrite (run_fetcher_elapse _ (S count)).
Qed.

(** The last round: the policy answers [false] and the loop ends in [err]. *)
Lemma run_give_up opts count n ws q e b :
  in_flight opts count n ws q ->
  fetchFn (Nat.pred n) = FRetry e b ->
  onRetry opts (S count) e = None ->
  exists q',
    (forall fuel,
       run_fetcher browser (S fuel) clock fetchFn q = Some (Returned q')) /\
    current q' = Err false e /\ fetchCalls q' = n /\ retryWaits q' = ws /\
    fetcher_pc q' = NotRunning /\ isFetching q' = false.
Proof.
  intros (Ho & Hpc & Hf & He & Hn & Hw) Hfn Hr.
  eexists. split.
  - intros fuel. rewrite (run_fetcher_resolve _ count) by done.
    rewrite Hn, Hfn. unfold fetcher_on_result. rewrite Ho, Hr.
    unfold fetcher_finish. simpl. rewrite clearCache_busy by done.
    by rewrite run_fetcher_done.
  - by simpl.
Qed.

End Retries.

(** ** Retry policies *)

Section RetryPolicies.

Context {D E : Type}.
Variable clock : nat -> Z.
Variable fetchFn : nat -> FetchResult D E.
Implicit Types (q : Query D E).

(** C3. With the default [onRetry] a fetch that keeps asking for a retry is
    invoked four times, not three: the default policy answers 0 for the
    counts 1, 2 and 3 and [false] only for 4, so three retry timers of zero
    milliseconds are set before the loop ends in [err]. *)
Theorem C3_default_policy_fetches_four_times q :
  onRetry (options q) = default_onRetry ->
  stale_flag q = true -> isFetching q = false -> stoppedBy q = ∅ ->
  (forall k, exists e b, fetchFn k = FRetry e b) ->
  exists q' e,
    run_fetcher true 7 clock fetchFn (fetcher true q) = Some (Returned q') /\
    fetchCalls q' = (fetchCalls q + 4)%nat /\
    retryWaits q' = retryWaits q ++ [0; 0; 0] /\
    current q' = Err false e /\
    fetcher_pc q' = NotRunning.
Proof.
  intros Hpol Hs Hf He Hall.
  pose proof (fetcher_enters true q eq_refl Hs Hf He) as H0.
  destruct (Hall (Nat.pred (S (fetchCalls q)))) as (e1 & b1 & Hr1).
  destruct (run_retry_round true clock fetchFn _ _ _ _ _ e1 b1 0 H0 Hr1)
    as (q1 & H1 & Hrun1); [by rewrite Hpol |].
  destruct (Hall (Nat.pred (S (S (fetchCalls q))))) as (e2 & b2 & Hr2).
  destruct (run_retry_round true clock fetchFn _ _ _ _ _ e2 b2 0 H1 Hr2)
    as (q2 & H2 & Hrun2); [by rewrite Hpol |].
  destruct (Hall (Nat.pred (S (S (S (fetchCalls q)))))) as (e3 & b3 & Hr3).
  destruct (run_retry_round true clock fetchFn _ _ _ _ _ e3 b3 0 H2 Hr3)
    as (q3 & H3 & Hrun3); [by rewrite Hpol |].
  destruct (Hall (Nat.pred (S (S (S (S (fetchCalls q))))))) as (e4 & b4 & Hr4).
  destruct (run_give_up true clock fetchFn _ _ _ _ _ e4 b4 H3 Hr4)
    as (q' & Hrun & Hcur & Hn & Hw & Hpc & _); [by rewrite Hpol |].
  exists q', e4. rewrite Hrun1, Hrun2, Hrun3, Hrun.
  split; [done |]. split; [rewrite Hn; lia |].
  split; [by rewrite Hw, <- !app_assoc |]. done.
Qed.

(** C6. With a policy that answers 0, 0 and [false] for the counts 1, 2 and
    3, a fetch that always resolves to a retry of the error [e] without
    [returnError] is invoked three times, sets two retry timers of zero
    milliseconds, and then ends with [current] at
    [err] with [isRefetching] false and the error [e]. *)
Theorem C6_two_retries_then_err q e :
  onRetry (options q) 1%nat e = Some 0 ->
  onRetry (options q) 2%nat e = Some 0 ->
  onRetry (options q) 3%nat e = None ->
  stale_flag q = true -> isFetching q = false -> stoppedBy q = ∅ ->
  (forall k, fetchFn k = FRetry e false) ->
  exists q',
    run_fetcher true 5 clock fetchFn (fetcher true q) = Some (Returned q') /\
    fetchCalls q' = (fetchCalls q + 3)%nat /\
    retryWaits q' = retryWaits q ++ [0; 0] /\
    current q' = Err false e /\
    fetcher_pc q' = NotRunning /\ isFetching q' = false.
Proof.
  intros Hp1 Hp2 Hp3 Hs Hf He Hall.
  pose proof (fetcher_enters true q eq_refl Hs Hf He) as H0.
  destruct (run_retry_round true clock fetchFn _ _ _ _ _ e false 0 H0
              (Hall _) Hp1) as (q1 & H1 & Hrun1).
  destruct (run_retry_round true clock fetchFn _ _ _ _ _ e false 0 H1
              (Hall _) Hp2) as (q2 & H2 & Hrun2).
  destruct (run_give_up true clock fetchFn _ _ _ _ _ e false H2 (Hall _) Hp3)
    as (q' & Hrun & Hcur & Hn & Hw & Hpc & Hfin).
  exists q'. rewrite Hrun1, Hrun2, Hrun.
  split; [done |]. split; [rewrite Hn; lia |].
  split; [by rewrite Hw, <- !app_assoc |]. done.
Qed.

End RetryPolicies.

(** ** Outcomes of a fetch *)

Section FetchOutcomes.

Context {D E : Type}.
Variable browser : bool.
Implicit Types (q s : Query D E) (op : Op D E).

Lemma current_setData now data q : current (setData now data q) = Ok data.
Proof. reflexivity. Qed.

Lemma exposed_stale_uncached q :
  stale_flag q = true -> hasCached (cache (query q)) = false ->
  current q <> Idle -> exposed q = Loading.
Proof.
  unfold exposed, currentWithCaching_, stale_flag. intros -> -> Hc.
  by destruct (current q).
Qed.

(** C4. When the fetch resolves to [err], the cache is cleared and
    [current] becomes [err] with [isRefetching] false, but subscribers are
    not shown that error: clearing the cache marks the query stale, and a
    stale query without cache is exposed as loading.  Nor is the error
    visible in between, right after [current] was set. *)
Theorem C4_err_outcome_is_exposed_as_loading now e count q :
  isFetching q = true -> stale_flag q = true ->
  exists q',
    fetcher_on_result browser now (FErr e) count q = Returned q' /\
    current q' = Err false e /\
    hasCached (cache (query q')) = false /\
    exposed q' = Loading /\
    exposed (set_current (Err false e) q) <> Err false e.
Proof.
  intros Hf Hs. eexists. split.
  - unfold fetcher_on_result, fetcher_finish. simpl.
    rewrite clearCache_busy by done. reflexivity.
  - repeat split.
    unfold exposed, currentWithCaching_, stale_flag in *. simpl. rewrite Hs.
    simpl. by repeat case_match.
Qed.

(** A step that throws is a resumed fetch whose loop was left with
    [current] idle or loading. *)
Lemma fetcher_finish_thrown now s :
  fetcher_finish browser now s = Thrown s <-> settled (current s) = false.
Proof. unfold fetcher_finish. by destruct (current s). Qed.

Lemma fetcher_on_result_returns now result count q :
  exists q', fetcher_on_result browser now result count q = Returned q'.
Proof.
  unfold fetcher_on_result, fetcher_finish.
  destruct result as [err b|err|data]; simpl; [| by eexists..].
  destruct (onRetry _ _ _); by eexists.
Qed.

Lemma step_returns op q : exists q', step browser op q = Returned q'.
Proof.
  destruct op; simpl; try (by eexists).
  - destruct (fetcher_pc q); try (by eexists).
    apply fetcher_on_result_returns.
  - destruct (fetcher_pc q); by eexists.
  - destruct (stale_timeout _); by eexists.
  - destruct (cache_timeout _); by eexists.
  - case_bool_decide; by eexists.
Qed.

Lemma fetcher_on_result_settles now result count q q' :
  isFetching q = true ->
  fetcher_on_result browser now result count q = Returned q' ->
  fetcher_pc q' = NotRunning -> settled (current q') = true.
Proof.
  unfold fetcher_on_result, fetcher_finish. intros Hf H Hpc.
  destruct result as [err b|err|data]; simpl in H.
  - destruct (onRetry _ _ _).
    + injection H as <-. done.
    + injection H as <-. by rewrite clearCache_busy.
  - injection H as <-. by rewrite clearCache_busy.
  - by injection H as <-.
Qed.

(** While a fetch is in flight, nothing but the coroutine itself takes
    [current] back to idle or loading: method calls and events, also those
    made by a subscriber from inside a store update, leave a settled
    [current] settled and the fetch in flight. *)
Lemma busy_step_keeps_settled op q q' :
  is_resumption op = false ->
  isFetching q = true -> settled (current q) = true ->
  step browser op q = Returned q' ->
  isFetching q' = true /\ settled (current q') = true.
Proof.
  intros Hop Hf Hc H. destruct op; try discriminate Hop; simpl in H.
  - injection H as <-. by rewrite fetcher_busy.
  - destruct (stale_timeout _); injection H as <-; [| done].
    by rewrite markStale_busy.
  - destruct (cache_timeout _); injection H as <-; [| done].
    by rewrite clearCache_busy.
  - injection H as <-. by rewrite markStale_busy.
  - injection H as <-. by rewrite clearCache_busy.
  - by injection H as <-.
  - injection H as <-. unfold resetStaleTimer. by case_match.
  - injection H as <-. unfold subscribe, refetch.
    repeat case_match; try done; by rewrite markStale_busy.
  - case_bool_decide; injection H as <-; [| done].
    unfold unsubscribe. by case_bool_decide.
  - injection H as <-. unfold onChange_result, refetch, invalidateAndRefetch.
    destruct result; try done;
      by rewrite ?markStale_busy, ?clearCache_busy.
  - injection H as <-. destruct result; simpl; try done;
      by rewrite ?markStale_busy, ?clearCache_busy.
Qed.

(** C8. In every state a query can reach, no step throws; and when a
    resumed fetch leaves the loop (the coroutine is no longer suspended
    afterwards), [current] is [ok] or [err].  The check after the loop is
    modelled: it throws exactly on a [current] that is idle or loading. *)
Theorem C8_fetcher_never_throws q :
  reachable browser q ->
  (forall op, exists q', step browser op q = Returned q') /\
  (forall now result count q',
     fetcher_pc q = AwaitFetch count ->
     fetcher_on_result browser now result count q = Returned q' ->
     fetcher_pc q' = NotRunning -> settled (current q') = true) /\
  (forall now s, fetcher_finish browser now s = Thrown s <->
                 settled (current s) = false).
Proof.
  intros Hq. split; [intros op; apply step_returns |]. split.
  - intros now result count q' Hpc Hres Hdone.
    apply (fetcher_on_result_settles now result count q q'); try done.
    pose proof (reachable_pc_inv browser q Hq) as Hinv.
    unfold pc_inv in Hinv. by rewrite Hpc in Hinv.
  - intros now s. apply fetcher_finish_thrown.
Qed.

(** C7. A dependency whose [onChange] answers ['stop'] has its index added
    to [stoppedBy], and [invalidateAndRefetch] runs on the query; when no
    fetch was in flight this leaves [current] idle with no new invocation of
    the fetch function.  A fetch
    loop entered while [stoppedBy] is not empty (the guards of [fetcher]
    pass) sets [current], and with it the exposed result, to idle and
    returns at once: the fetch function is not invoked.  The same holds when
    the loop comes round again after a retry delay. *)
Theorem C7_stop_blocks_the_fetch_loop i q s :
  stoppedBy s <> ∅ ->
  browser = true -> stale_flag s = true -> isFetching s = false ->
  onChange_result browser i Stop q =
    invalidateAndRefetch browser (set_stoppedBy ({[i]} ∪ stoppedBy q) q) /\
  i ∈ stoppedBy (onChange_result browser i Stop q) /\
  (isFetching q = false ->
   current (onChange_result browser i Stop q) = Idle /\
   fetchCalls (onChange_result browser i Stop q) = fetchCalls q) /\
  (current (fetcher browser s) = Idle /\
   exposed (fetcher browser s) = Idle /\
   isFetching (fetcher browser s) = false /\
   fetcher_pc (fetcher browser s) = NotRunning /\
   fetchCalls (fetcher browser s) = fetchCalls s) /\
  (forall count,
     current (fetcher_loop count s) = Idle /\
     fetcher_pc (fetcher_loop count s) = NotRunning /\
     fetchCalls (fetcher_loop count s) = fetchCalls s).
Proof.
  intros Hne -> Hs Hf. split; [reflexivity |]. split.
  - simpl. unfold invalidateAndRefetch. rewrite stoppedBy_clearCache. simpl.
    set_solver.
  - split; [| split].
    + intros Hfq. simpl.
      unfold invalidateAndRefetch, clearCache, markStale, fetcher. simpl.
      rewrite Hfq. rewrite fetcher_loop_stopped; [done |].
      simpl. set_solver.
    + unfold fetcher. unfold stale_flag in Hs. rewrite Hs, Hf. simpl.
      by rewrite fetcher_loop_stopped.
    + intros count. by rewrite fetcher_loop_stopped.
Qed.

(** C2. The staleness reset leaves [isStale] as it is.  A query whose
    [stale.duration] answers a number is, after [setData] and likewise after
    a successful fetch, in a reachable state in which [isStale] is true
    while the staleness timer is pending and [turnsStaleAt] holds a date. *)
Theorem C2_staleness_reset_leaves_flag_up (d : D) (now duration : Z) :
  let q0 : Query D E :=
    Query_new true (stale_after duration) (fun _ => Nothing) in
  (let q := setData now d q0 in
   reachable true q /\
   isStale (stale (query q)) = true /\
   turnsStaleAt (stale (query q)) = Some (now + duration) /\
   stale_timeout (stale (query q)) = Some (now + duration)) /\
  (exists q, step true (OpFetchResolved now (FOk d)) q0 = Returned q /\
   reachable true q /\
   isStale (stale (query q)) = true /\
   turnsStaleAt (stale (query q)) = Some (now + duration) /\
   stale_timeout (stale (query q)) = Some (now + duration)).
Proof.
  intros q0. split.
  - split; [| by repeat split].
    apply (reachable_step true q0 (OpSetData now d)); [constructor | done].
  - eexists. split; [reflexivity |].
    split; [| by repeat split].
    apply (reachable_step true q0 (OpFetchResolved now (FOk d)));
      [constructor | done].
Qed.

End FetchOutcomes.

(** ** The registry *)

Section RegistryWalk.

Implicit Types (key p rest : list string) (root item : QmItem).

Lemma node_at_cons subKey rest item :
  node_at (subKey :: rest) item =
  match item_props item !! subKey with
  | Some c => node_at rest c
  | None => None
  end.
Proof. reflexivity. Qed.

(** The object the loop ends on sits at the key in the tree it leaves. *)
Lemma node_at_getQuery_walk key root :
  node_at key (getQuery_walk key root).1 = Some (getQuery_walk key root).2.
Proof.
  revert root. induction key as [|k ks IH]; intros root; [done |].
  simpl. rewrite lookup_insert_eq. apply IH.
Qed.

(** A path that is present is walked without a write. *)
Lemma getQuery_walk_present key root n :
  node_at key root = Some n -> getQuery_walk key root = (root, n).
Proof.
  revert root. induction key as [|k ks IH]; intros root H.
  - simpl in *. by injection H as ->.
  - rewrite node_at_cons in H. simpl.
    destruct (item_props root !! k) as [c|] eqn:Hk; [| done].
    rewrite (IH c H). simpl. rewrite insert_id by done. by destruct root.
Qed.

(** Walking a key from an empty mapping builds the chain of the key. *)
Lemma getQuery_walk_empty key :
  getQuery_walk key (Node None ∅) = (empty_path key, Node None ∅).
Proof.
  induction key as [|k ks IH]; [done |].
  simpl. rewrite lookup_empty, IH. simpl. by rewrite insert_empty.
Qed.

Lemma node_at_empty key :
  key <> [] -> node_at key (Node None ∅) = None.
Proof. destruct key; [done |]. intros _. simpl. by rewrite lookup_empty. Qed.

(** A path that is not fully present ends on a fresh empty mapping. *)
Lemma getQuery_walk_absent key root :
  node_at key root = None -> (getQuery_walk key root).2 = Node None ∅.
Proof.
  revert root. induction key as [|k ks IH]; intros root H; [done |].
  rewrite node_at_cons in H. simpl.
  destruct (item_props root !! k) as [c|] eqn:Hk.
  - by apply IH.
  - by rewrite getQuery_walk_empty.
Qed.

(** Every segment that was missing now holds the chain of the segments
    after it. *)
Lemma getQuery_walk_vivifies p rest root :
  node_at p root = None ->
  node_at p (getQuery_walk (p ++ rest) root).1 = Some (empty_path rest).
Proof.
  revert root. induction p as [|k p IH]; intros root H; [done |].
  rewrite node_at_cons in H. simpl. rewrite lookup_insert_eq.
  destruct (item_props root !! k) as [c|] eqn:Hk.
  - by apply IH.
  - destruct p as [|k' p'].
    + simpl. by rewrite getQuery_walk_empty.
    + apply IH. by apply node_at_empty.
Qed.

(** What lies off the key is left alone: a path that parts from the key at
    some segment leads to the same object as before. *)
Lemma getQuery_walk_frame p a b r1 r2 root :
  a <> b ->
  node_at (p ++ a :: r1) (getQuery_walk (p ++ b :: r2) root).1 =
  node_at (p ++ a :: r1) root.
Proof.
  intros Hab. revert root. induction p as [|k p IH]; intros root.
  - simpl. by rewrite lookup_insert_ne.
  - simpl. rewrite lookup_insert_eq.
    destruct (item_props root !! k) as [c|] eqn:Hk; [by apply IH |].
    rewrite IH. destruct p; simpl; by rewrite lookup_empty.
Qed.

(** Objects keep being, or not being, the store of a query. *)
Lemma getQuery_walk_keeps_store p rest root n :
  node_at p root = Some n ->
  exists n', node_at p (getQuery_walk (p ++ rest) root).1 = Some n' /\
             item_store n' = item_store n.
Proof.
  revert root. induction p as [|k p IH]; intros root H.
  - simpl in H. injection H as ->. simpl.
    destruct rest; simpl; by eexists.
  - rewrite node_at_cons in H. simpl. rewrite lookup_insert_eq.
    destruct (item_props root !! k) as [c|] eqn:Hk; [by apply IH | done].
Qed.

End RegistryWalk.

Section Registry.

Context {D E : Type}.
Variable browser : bool.
Implicit Types (key p rest : list string) (root : QmItem) (w : World D E).

(** C10. [getQuery] on a key whose path is not fully present writes to the
    tree: it answers "not found", leaves a different tree in which the key
    leads to an empty mapping and every segment that was missing holds the
    chain of empty mappings for the segments after it, keeps what was there
    (objects on the path stay the stores or mappings they were, paths that
    part from the key lead where they led), and does not notify the store.
    Each key-addressed operation on such a key does this and nothing else:
    the [Query] objects are as before. *)
Theorem C10_getQuery_vivifies_missing_path key root :
  node_at key root = None ->
  (getQuery key root).2 = None /\
  (getQuery key root).1 <> root /\
  node_at key (getQuery key root).1 = Some (Node None ∅) /\
  (forall p rest, key = p ++ rest -> node_at p root = None ->
     node_at p (getQuery key root).1 = Some (empty_path rest)) /\
  (forall p rest n, key = p ++ rest -> node_at p root = Some n ->
     exists n', node_at p (getQuery key root).1 = Some n' /\
                item_store n' = item_store n) /\
  (forall p a b r1 r2, key = p ++ b :: r2 -> a <> b ->
     node_at (p ++ a :: r1) (getQuery key root).1 =
     node_at (p ++ a :: r1) root) /\
  (forall w now data, queryMap w = root ->
     let w' := mkWorld (getQuery key root).1 (notified w) (queries w) in
     invalidate_key browser key w = w' /\
     invalidateAndRefetch_key browser key w = w' /\
     refetch_key browser key w = w' /\
     markStale_key browser key w = w' /\
     updateData_key now key data w = w').
Proof.
  intros Habs. unfold getQuery. simpl.
  pose proof (getQuery_walk_absent key root Habs) as Hfin.
  pose proof (node_at_getQuery_walk key root) as Hat.
  rewrite Hfin in Hat.
  split; [by rewrite Hfin |].
  split; [intros Heq; rewrite Heq in Hat; congruence |].
  split; [exact Hat |].
  split; [intros p rest -> Hp; by apply getQuery_walk_vivifies |].
  split; [intros p rest n -> Hp; by apply getQuery_walk_keeps_store |].
  split; [intros p a b r1 r2 -> Hab; by apply getQuery_walk_frame |].
  intros w now data <-.
  unfold invalidate_key, invalidateAndRefetch_key, refetch_key, markStale_key,
    updateData_key, on_query, getQuery. simpl.
  by rewrite Hfin.
Qed.

End Registry.

(** ** The merge of the options *)

Section OptionsMerge.

Implicit Types (props acc : list (string * JsValue)) (key : string).

Lemma js_get_set_ne key k v props :
  k <> key -> js_get key (js_set k v props) = js_get key props.
Proof.
  intros Hne. induction props as [|[k' w] rest IH]; simpl.
  - by rewrite (proj2 (String.eqb_neq k key)).
  - destruct (String.eqb k' k) eqn:Hk; simpl.
    + apply String.eqb_eq in Hk as ->.
      by rewrite (proj2 (String.eqb_neq k key)).
    + destruct (String.eqb k' key); [done | exact IH].
Qed.

Lemma js_get_spread_other key props acc :
  key ∉ props.*1 -> js_get key (js_spread acc props) = js_get key acc.
Proof.
  unfold js_spread. revert acc.
  induction props as [|[k v] rest IH]; intros acc Hnotin; [done |].
  simpl in *. apply not_elem_of_cons in Hnotin as [Hne Hrest].
  rewrite IH by done. by apply js_get_set_ne.
Qed.

(** A group of options that the caller does not name at all keeps its
    default: the spread works on the top level. *)
Lemma Query_options_keeps_unnamed_group key props :
  match recursiveRemoveUndefined (JObject props) with
  | JObject cleaned => key ∉ cleaned.*1
  | _ => False
  end ->
  js_get key (Query_options (JObject props)) =
  js_get key default_options_object.
Proof.
  unfold Query_options.
  destruct (recursiveRemoveUndefined (JObject props)); try done.
  apply js_get_spread_other.
Qed.

(** C5. The merge is a spread of the top level only.  A caller who supplies
    [stale.onSubscribeIfUnused] and nothing else gets a group [stale] that
    holds that one field: [stale.duration] and [stale.refetchIfUnused] are
    [undefined] in the effective options, not the defaults.  The groups the
    caller did not name keep their defaults. *)
Theorem C5_sibling_defaults_are_lost :
  let supplied :=
    JObject [("stale", JObject [("onSubscribeIfUnused", JBool true)])]%string in
  let effective := JObject (Query_options supplied) in
  js_path ["stale"; "onSubscribeIfUnused"]%string effective = JBool true /\
  js_path ["stale"; "duration"]%string effective = JUndefined /\
  js_path ["stale"; "refetchIfUnused"]%string effective = JUndefined /\
  js_path ["stale"; "duration"]%string (JObject default_options_object)
    = JFunction "never" /\
  js_path ["cache"; "duration"]%string effective = JFunction "never" /\
  js_path ["dependencies"]%string effective = JArray [] /\
  js_path ["onRetry"]%string effective
    = js_path ["onRetry"]%string (JObject default_options_object).
Proof.
  intros supplied effective. subst supplied effective.
  unfold Query_options. cbn [recursiveRemoveUndefined].
  unfold js_spread, default_options_object. cbn.
  repeat split.
Qed.

End OptionsMerge.

(** * The theorems at concrete queries *)

Lemma C9_witness :
  let q := setData 0 7%nat fresh_query in
  reachable true q /\
  isStale (stale (query q)) = true /\
  (forall op q', step true op q = Returned q' ->
                 isStale (stale (query q')) = true) /\
  exposed q = Ok 7%nat.
Proof.
  intros q.
  assert (Hq : reachable true q).
  { apply (reachable_step true fresh_query (OpSetData 0 7%nat));
      [constructor | reflexivity]. }
  split; [exact Hq |]. exact (C9_isStale_never_lowered true q Hq).
Defined.

Lemma C3_witness :
  let q := unfetched_query in
  (onRetry (options q) = default_onRetry /\ stale_flag q = true /\
   isFetching q = false /\ stoppedBy q = ∅) /\
  exists q' e,
    run_fetcher true 7 (fun _ => 0) always_retry (fetcher true q)
      = Some (Returned q') /\
    fetchCalls q' = 4%nat /\
    retryWaits q' = [0; 0; 0] /\
    current q' = Err false e /\
    fetcher_pc q' = NotRunning.
Proof.
  intros q. split; [by repeat split |].
  apply (C3_default_policy_fetches_four_times (fun _ => 0) always_retry q);
    try reflexivity.
  intros k. exists "offline"%string, false. reflexivity.
Defined.

Lemma C6_witness :
  let q := Query_fields two_retries in
  (onRetry (options q) 1%nat "offline"%string = Some 0 /\
   onRetry (options q) 2%nat "offline"%string = Some 0 /\
   onRetry (options q) 3%nat "offline"%string = None) /\
  exists q',
    run_fetcher true 5 (fun _ => 0) always_retry (fetcher true q)
      = Some (Returned q') /\
    fetchCalls q' = 3%nat /\
    retryWaits q' = [0; 0] /\
    current q' = Err false "offline"%string /\
    fetcher_pc q' = NotRunning /\ isFetching q' = false.
Proof.
  intros q. split; [by repeat split |].
  apply (C6_two_retries_then_err (fun _ => 0) always_retry q "offline"%string);
    reflexivity.
Defined.

Lemma C4_witness :
  (isFetching fresh_query = true /\ stale_flag fresh_query = true) /\
  exists q',
    fetcher_on_result true 0 (FErr "denied"%string) 0 fresh_query
      = Returned q' /\
    current q' = Err false "denied"%string /\
    hasCached (cache (query q')) = false /\
    exposed q' = Loading /\
    exposed (set_current (Err false "denied"%string) fresh_query)
      <> Err false "denied"%string.
Proof.
  split; [by split |].
  apply (C4_err_outcome_is_exposed_as_loading true 0 "denied"%string 0%nat
           fresh_query); reflexivity.
Defined.

Lemma C8_witness :
  reachable true fresh_query /\
  (forall op, exists q', step true op fresh_query = Returned q') /\
  (forall now result count q',
     fetcher_pc fresh_query = AwaitFetch count ->
     fetcher_on_result true now result count fresh_query = Returned q' ->
     fetcher_pc q' = NotRunning -> settled (current q') = true) /\
  (forall now (s : Query nat string),
     fetcher_finish true now s = Thrown s <-> settled (current s) = false).
Proof.
  split; [constructor |].
  apply (C8_fetcher_never_throws true fresh_query). constructor.
Defined.

Lemma C7_witness :
  let s := onChange_result true 0 Stop unfetched_query in
  (stoppedBy s <> ∅ /\ stale_flag s = true /\ isFetching s = false) /\
  0%nat ∈ stoppedBy s /\
  current (fetcher true s) = Idle /\
  exposed (fetcher true s) = Idle /\
  fetchCalls (fetcher true s) = 0%nat.
Proof.
  intros s.
  assert (Hin : 0%nat ∈ stoppedBy s).
  { unfold s. simpl. unfold invalidateAndRefetch.
    rewrite stoppedBy_clearCache. simpl. set_solver. }
  assert (Hne : stoppedBy s <> ∅) by set_solver.
  assert (Hs : stale_flag s = true) by apply stale_flag_clearCache.
  assert (Hf : isFetching s = false) by (vm_compute; reflexivity).
  split; [done |].
  destruct (C7_stop_blocks_the_fetch_loop true 0%nat unfetched_query s
              Hne eq_refl Hs Hf) as (_ & Hi & _ & (Hc & He & _ & _ & Hn) & _).
  split; [exact Hi |]. split; [exact Hc |]. split; [exact He |].
  rewrite Hn. vm_compute. reflexivity.
Defined.

Lemma C10_witness :
  let key := ["wallet"; "eur"]%string in
  let r := getQuery key small_registry in
  node_at key small_registry = None /\
  r.2 = None /\
  r.1 <> small_registry /\
  node_at key r.1 = Some (Node None ∅) /\
  node_at ["wallet"]%string r.1 = Some (empty_path ["eur"]%string) /\
  node_at ["user"]%string r.1 = Some (Node (Some 0%nat) ∅) /\
  (forall (w : World nat string), queryMap w = small_registry ->
     markStale_key true key w = mkWorld r.1 (notified w) (queries w)).
Proof.
  intros key r.
  assert (Habs : node_at key small_registry = None) by (vm_compute; reflexivity).
  destruct (C10_getQuery_vivifies_missing_path (D:=nat) (E:=string) true key
              small_registry Habs)
    as (Hnone & Hne & Hat & Hviv & _ & Hframe & Hops).
  split; [exact Habs |]. split; [exact Hnone |]. split; [exact Hne |].
  split; [exact Hat |]. split.
  - apply (Hviv ["wallet"]%string ["eur"]%string); [reflexivity |].
    vm_compute; reflexivity.
  - split.
    + transitivity (node_at ["user"]%string small_registry).
      * apply (Hframe [] "user"%string "wallet"%string [] ["eur"]%string);
          [reflexivity | discriminate].
      * vm_compute; reflexivity.
    + intros w Hw. apply (Hops w 0 0%nat Hw).
Defined.



(** * Further properties *)

(** ** Looking up and registering queries *)

Section RegistryLookups.

Implicit Types (key p k : list string) (root tree item v : QmItem).

(** What [getQuery] answers is what the tree held before the call. *)
Lemma getQuery_answer key root : (getQuery key root).2 = find_query key root.
Proof.
  unfold getQuery, find_query. simpl.
  destruct (node_at key root) as [n|] eqn:Hn.
  - by rewrite (getQuery_walk_present key root n Hn).
  - by rewrite (getQuery_walk_absent key root Hn).
Qed.

Lemma getQuery_present key root n :
  node_at key root = Some n -> (getQuery key root).1 = root.
Proof.
  intros Hn. unfold getQuery. simpl.
  by rewrite (getQuery_walk_present key root n Hn).
Qed.

(** A walk along any key keeps every object of the tree, and keeps it a
    store or a mapping as it was. *)
Lemma getQuery_walk_keeps k p root n :
  node_at p root = Some n ->
  exists n', node_at p (getQuery_walk k root).1 = Some n' /\
             item_store n' = item_store n.
Proof.
  revert p root n. induction k as [|a k IH]; intros p root n Hp.
  - by exists n.
  - destruct p as [|b p]; simpl in *.
    + injection Hp as <-. by eexists.
    + destruct (item_props root !! b) as [c|] eqn:Hb; [| done].
      destruct (decide (a = b)) as [->|Hab].
      * rewrite lookup_insert_eq, Hb. by apply IH.
      * rewrite lookup_insert_ne by done. rewrite Hb. by exists n.
Qed.

Lemma find_query_getQuery k p root id :
  find_query p root = Some id -> find_query p (getQuery k root).1 = Some id.
Proof.
  unfold find_query. intros H.
  destruct (node_at p root) as [n|] eqn:Hn; [| done].
  destruct (getQuery_walk_keeps k p root n Hn) as (n' & Hn' & Hst).
  unfold getQuery. simpl. by rewrite Hn', Hst.
Qed.

Lemma node_at_getQuery_keeps k p root :
  is_Some (node_at p root) -> is_Some (node_at p (getQuery k root).1).
Proof.
  intros [n Hn]. destruct (getQuery_walk_keeps k p root n Hn) as (n' & Hn' & _).
  by exists n'.
Qed.

Lemma find_query_run_watchers keys p root id :
  find_query p root = Some id ->
  find_query p (run_watchers keys root) = Some id.
Proof.
  unfold run_watchers. revert root.
  induction keys as [|k keys IH]; intros root H; [done |].
  simpl. apply IH. by apply find_query_getQuery.
Qed.

Lemma node_at_run_watchers keys p root :
  is_Some (node_at p root) -> is_Some (node_at p (run_watchers keys root)).
Proof.
  unfold run_watchers. revert root.
  induction keys as [|k keys IH]; intros root H; [done |].
  simpl. apply IH. by apply node_at_getQuery_keeps.
Qed.

Lemma assign_at_cons a b key v item :
  assign_at (a :: b :: key) v item =
  match item_props item !! a with
  | None => None
  | Some c =>
    match assign_at (b :: key) v c with
    | None => None
    | Some c' =>
      Some (Node (item_store item) (<[a := c']> (item_props item)))
    end
  end.
Proof. reflexivity. Qed.

(** The assignment of [useQuery] succeeds on a path that is present. *)
Lemma assign_at_present key v root :
  is_Some (node_at key root) -> is_Some (assign_at key v root).
Proof.
  revert root. induction key as [|a key IH]; intros root H; [by eexists |].
  destruct key as [|b key]; [by eexists |].
  rewrite node_at_cons in H. rewrite assign_at_cons.
  destruct (item_props root !! a) as [c|]; [| by destruct H].
  destruct (IH c H) as [c' Hc']. rewrite Hc'. by eexists.
Qed.

Lemma node_at_assign_at key v root root' :
  key <> [] -> assign_at key v root = Some root' ->
  node_at key root' = Some v.
Proof.
  revert root root'. induction key as [|a key IH]; intros root root' Hne H;
    [done |].
  destruct key as [|b key].
  - injection H as <-. simpl. by rewrite lookup_insert_eq.
  - rewrite assign_at_cons in H.
    destruct (item_props root !! a) as [c|]; [| done].
    destruct (assign_at (b :: key) v c) as [c'|] eqn:Hc; [| done].
    injection H as <-. rewrite node_at_cons. simpl. rewrite lookup_insert_eq.
    by apply (IH c).
Qed.

(** The assignment leaves alone what does not lie under the key. *)
Lemma assign_at_keeps key v p root root' n :
  ~ key `prefix_of` p ->
  assign_at key v root = Some root' ->
  node_at p root = Some n ->
  exists n', node_at p root' = Some n' /\ item_store n' = item_store n.
Proof.
  revert p root root' n.
  induction key as [|a key IH]; intros p root root' n Hpre H Hp.
  - exfalso. apply Hpre. apply prefix_nil.
  - destruct key as [|b key].
    + injection H as <-. destruct p as [|c p]; simpl in *.
      * injection Hp as <-. by eexists.
      * destruct (decide (a = c)) as [->|Hac].
        { exfalso. apply Hpre. by apply prefix_cons, prefix_nil. }
        rewrite lookup_insert_ne by done. by exists n.
    + rewrite assign_at_cons in H.
      destruct (item_props root !! a) as [c|] eqn:Ha; [| done].
      destruct (assign_at (b :: key) v c) as [c'|] eqn:Hc; [| done].
      injection H as <-. destruct p as [|d p].
      * simpl in *. injection Hp as <-. by eexists.
      * rewrite node_at_cons in Hp. rewrite node_at_cons. simpl.
        destruct (decide (a = d)) as [->|Had].
        { rewrite lookup_insert_eq. rewrite Ha in Hp.
          apply (IH p c c' n); [| done | done].
          intros Hp'. apply Hpre. by apply prefix_cons. }
        rewrite lookup_insert_ne by done. by exists n.
Qed.

Lemma find_query_assign_at key v p root root' id :
  ~ key `prefix_of` p ->
  assign_at key v root = Some root' ->
  find_query p root = Some id -> find_query p root' = Some id.
Proof.
  unfold find_query. intros Hpre H Hf.
  destruct (node_at p root) as [n|] eqn:Hn; [| done].
  destruct (assign_at_keeps key v p root root' n Hpre H Hn) as (n' & Hn' & Hst).
  by rewrite Hn', Hst.
Qed.

(** A walk creates mappings only: an object that is a store afterwards was
    there before. *)
Lemma getQuery_walk_no_new_store k p root n' :
  node_at p (getQuery_walk k root).1 = Some n' ->
  item_store n' = None \/
  exists n, node_at p root = Some n /\ item_store n = item_store n'.
Proof.
  revert p root n'. induction k as [|a k IH]; intros p root n' Hp.
  - right. by exists n'.
  - destruct p as [|b p]; simpl in Hp.
    + injection Hp as <-. right. by exists root.
    + destruct (decide (a = b)) as [->|Hab].
      * rewrite lookup_insert_eq in Hp.
        destruct (IH _ _ _ Hp) as [Hl | (n & Hn & Hst)]; [by left |].
        rewrite node_at_cons.
        destruct (item_props root !! b) as [c|]; [right; by exists n |].
        left. destruct p; simpl in Hn.
        -- injection Hn as <-. by rewrite <- Hst.
        -- by rewrite lookup_empty in Hn.
      * rewrite lookup_insert_ne in Hp by done. right. exists n'.
        by rewrite node_at_cons.
Qed.

Lemma find_query_getQuery_eq k p root :
  find_query p (getQuery k root).1 = find_query p root.
Proof.
  destruct (find_query p root) as [id|] eqn:Hf;
    [by apply find_query_getQuery |].
  unfold find_query in *. unfold getQuery. simpl.
  destruct (node_at p (getQuery_walk k root).1) as [n'|] eqn:Hn'; [| done].
  destruct (getQuery_walk_no_new_store k p root n' Hn')
    as [Hl | (n & Hn & Hst)]; [done |].
  by rewrite Hn, Hst in Hf.
Qed.

Lemma find_query_run_watchers_eq keys p root :
  find_query p (run_watchers keys root) = find_query p root.
Proof.
  unfold run_watchers. revert root.
  induction keys as [|k keys IH]; intros root; [done |].
  simpl. rewrite IH. apply find_query_getQuery_eq.
Qed.

Lemma node_at_empty_store key id :
  key <> [] -> node_at key (Node (Some id) ∅) = None.
Proof. destruct key; [done |]. intros _. simpl. by rewrite lookup_empty. Qed.

Lemma node_at_app p rest item :
  node_at (p ++ rest) item =
  match node_at p item with
  | Some n => node_at rest n
  | None => None
  end.
Proof.
  revert item. induction p as [|a p IH]; intros item; [done |].
  simpl. destruct (item_props item !! a); [apply IH | done].
Qed.

Lemma find_query_empty key : key <> [] -> find_query key (Node None ∅) = None.
Proof. intros H. unfold find_query. by rewrite node_at_empty. Qed.

End RegistryLookups.

Section RegistryUse.

Context {D E : Type}.
Variable browser : bool.
Implicit Types (key p k : list string) (root tree : QmItem)
  (r : Registry D E) (w : World D E) (opts : UseQueryOptions D E).

Lemma exposed_setData now data (q : Query D E) :
  exposed (setData now data q) = Ok data.
Proof.
  unfold exposed, currentWithCaching_, setData, resetStaleTimer. simpl.
  destruct (stale_duration_fn _ _); destruct (cache_duration_fn _ _); simpl;
    by destruct (isStale _).
Qed.

(** X1. A second [getQuery] on the same key writes nothing more and gives
    the same answer: the first call has created whatever was missing. *)
Theorem X1_getQuery_twice_is_once key root :
  getQuery key (getQuery key root).1 = getQuery key root.
Proof.
  unfold getQuery. simpl.
  pose proof (node_at_getQuery_walk key root) as Hat.
  by rewrite (getQuery_walk_present key _ _ Hat).
Qed.

(** X2. [getQuery] neither loses nor creates a query: whatever key is
    looked up, every key leads to the same query, or to none, as before.
    The answer of [getQuery] is the query its key led to before the call,
    and a key that leads to a query is looked up without a write. *)
Theorem X2_getQuery_keeps_what_keys_lead_to k p root :
  find_query p (getQuery k root).1 = find_query p root /\
  (getQuery p root).2 = find_query p root /\
  (is_Some (find_query p root) -> (getQuery p root).1 = root).
Proof.
  split; [apply find_query_getQuery_eq |].
  split; [apply getQuery_answer |].
  intros [id Hf]. unfold find_query in Hf.
  destruct (node_at p root) as [n|] eqn:Hn; [| done].
  by apply (getQuery_present p root n).
Qed.

(** X3. [useQuery] on a key under which no query is registered constructs
    one: the update callback does not throw, the new query has an identity
    of its own and the state its constructor leaves, it is found under the
    key from then on, the store has notified once, and the other [Query]
    objects are as they were. *)
Theorem X3_useQuery_registers_a_new_query key opts first_onChange dep_key r :
  key <> [] ->
  find_query key (queryMap (world r)) = None ->
  exists r' id,
    useQuery browser key opts first_onChange dep_key r = Some (r', id) /\
    queries (world r) !! id = None /\
    queries (world r') !! id = Some (Query_new browser opts first_onChange) /\
    (forall id', id' <> id ->
       queries (world r') !! id' = queries (world r) !! id') /\
    (getQuery key (queryMap (world r'))).2 = Some id /\
    notified (world r') = S (notified (world r)).
Proof.
  intros Hne Hnone.
  set (g := getQuery key (queryMap (world r))).
  set (deps := query_dependency_keys dep_key opts).
  assert (Hpres : is_Some (node_at key (run_watchers deps g.1))).
  { apply node_at_run_watchers. unfold g, getQuery. simpl.
    rewrite node_at_getQuery_walk. by eexists. }
  destruct (assign_at_present key (Node (Some (fresh (dom (queries (world r))))) ∅)
              _ Hpres) as [tree2 Ht2].
  eexists _, _. split.
  { unfold useQuery. cbv zeta. rewrite getQuery_answer, Hnone.
    fold g deps. rewrite Ht2. reflexivity. }
  cbn [world queries notified queryMap].
  split; [apply not_elem_of_dom, is_fresh |].
  split; [by rewrite lookup_insert_eq |].
  split; [intros id' Hid; by rewrite lookup_insert_ne |].
  split; [| done].
  rewrite getQuery_answer. apply find_query_run_watchers.
  unfold find_query. by rewrite (node_at_assign_at key _ _ _ Hne Ht2).
Qed.

(** X4. [useQuery] on a key under which a query is registered is a lookup:
    it hands back that query and changes nothing, whatever fetch function
    and options are passed; no [Query] is constructed and the store does not
    notify. *)
Theorem X4_useQuery_finds_the_registered_query
    key opts first_onChange dep_key r id :
  find_query key (queryMap (world r)) = Some id ->
  useQuery browser key opts first_onChange dep_key r = Some (r, id).
Proof.
  intros Hf. unfold useQuery. cbv zeta. rewrite getQuery_answer, Hf.
  unfold find_query in Hf.
  destruct (node_at key (queryMap (world r))) as [n|] eqn:Hn; [| done].
  rewrite (getQuery_present key _ n Hn).
  by destruct r as [[tree nn qs] ws].
Qed.

(** X5. Registering a key keeps the queries registered under other keys:
    unless the new key is a prefix of the other key, the other key leads to
    the same query afterwards and that query is untouched. *)
Theorem X5_useQuery_keeps_other_keys
    key opts first_onChange dep_key r r' id p id1 :
  ~ key `prefix_of` p ->
  find_query p (queryMap (world r)) = Some id1 ->
  is_Some (queries (world r) !! id1) ->
  useQuery browser key opts first_onChange dep_key r = Some (r', id) ->
  find_query p (queryMap (world r')) = Some id1 /\
  queries (world r') !! id1 = queries (world r) !! id1.
Proof.
  intros Hpre Hp Hq. unfold useQuery. cbv zeta.
  destruct ((getQuery key (queryMap (world r))).2) as [id0|] eqn:Hg.
  - intros H. injection H as <- <-. simpl.
    split; [by apply find_query_getQuery | done].
  - set (deps := query_dependency_keys dep_key opts).
    destruct (assign_at key _ _) as [tree2|] eqn:Ht2; [| done].
    intros H. injection H as <- <-. simpl. split.
    + apply find_query_run_watchers.
      apply (find_query_assign_at key _ p _ tree2 id1 Hpre Ht2).
      apply find_query_run_watchers. by apply find_query_getQuery.
    + apply lookup_insert_ne. intros Heq.
      apply elem_of_dom in Hq. rewrite <- Heq in Hq.
      by apply is_fresh in Hq.
Qed.

(** X7. Registering a key that is a proper prefix of a registered key
    replaces what lay under it: the assignment puts the new store where the
    mapping was, and the longer key leads to no query any more. *)
Theorem X7_useQuery_on_a_prefix_unregisters
    key rest opts first_onChange dep_key r r' id :
  key <> [] -> rest <> [] ->
  find_query key (queryMap (world r)) = None ->
  useQuery browser key opts first_onChange dep_key r = Some (r', id) ->
  find_query key (queryMap (world r')) = Some id /\
  find_query (key ++ rest) (queryMap (world r')) = None.
Proof.
  intros Hk Hrest Hnone. unfold useQuery. cbv zeta.
  rewrite getQuery_answer, Hnone.
  destruct (assign_at key _ _) as [tree2|] eqn:Ht2; [| done].
  intros H. injection H as <- <-. cbn [world queryMap].
  rewrite !find_query_run_watchers_eq. unfold find_query.
  rewrite node_at_app, (node_at_assign_at key _ _ _ Hk Ht2).
  split; [done |]. by rewrite node_at_empty_store.
Qed.

End RegistryUse.

(** ** When the fetch function is invoked *)

Section FetchTriggers.

Context {D E : Type}.
Variable browser : bool.
Implicit Types (q : Query D E) (op : Op D E).

(** Whether a call of [fetcher] gets past its guards and past the
    [stoppedBy] check of the loop. *)
Lemma fetchCalls_fetcher q :
  fetchCalls (fetcher browser q) =
  (fetchCalls q +
   if browser && stale_flag q && negb (isFetching q)
      && bool_decide (stoppedBy q = ∅) then 1 else 0)%nat.
Proof.
  unfold fetcher, stale_flag.
  destruct browser; simpl; [| lia].
  destruct (isStale _); simpl; [| lia].
  destruct (isFetching q); simpl; [lia |].
  case_bool_decide as He.
  - rewrite fetcher_loop_free by done. simpl. lia.
  - rewrite fetcher_loop_stopped by done. simpl. lia.
Qed.

Lemma fetchCalls_markStale forceRefetch q :
  fetchCalls (markStale browser forceRefetch q) =
  (fetchCalls q +
   if (forceRefetch || dataInUse q || stale_refetchIfUnused (options q))
      && (browser && negb (isFetching q) && bool_decide (stoppedBy q = ∅))
   then 1 else 0)%nat.
Proof.
  unfold markStale. simpl.
  destruct (forceRefetch || dataInUse q || stale_refetchIfUnused (options q));
    simpl; [| lia].
  rewrite fetchCalls_fetcher. unfold stale_flag. simpl.
  by rewrite andb_true_r.
Qed.

Lemma fetchCalls_clearCache forceRefetch q :
  fetchCalls (clearCache browser forceRefetch q) =
  (fetchCalls q +
   if (forceRefetch || dataInUse q || stale_refetchIfUnused (options q))
      && (browser && negb (isFetching q) && bool_decide (stoppedBy q = ∅))
   then 1 else 0)%nat.
Proof. unfold clearCache. by rewrite fetchCalls_markStale. Qed.

(** X8. When [markStale] and [clearCache] reach the network.  The fetch
    function is invoked, once, exactly when the code runs in the browser,
    no fetch is in flight, no dependency blocks the query, and the call
    forces the refetch or the query is in use or [stale.refetchIfUnused] is
    set.  So [refetch] and [invalidateAndRefetch] fetch whether or not
    anything subscribes, [markStale] and [invalidate] only for a query in
    use or with [refetchIfUnused]. *)
Theorem X8_when_marking_stale_fetches forceRefetch q :
  let wanted :=
    forceRefetch || dataInUse q || stale_refetchIfUnused (options q) in
  let able :=
    browser && negb (isFetching q) && bool_decide (stoppedBy q = ∅) in
  fetchCalls (markStale browser forceRefetch q) =
    (fetchCalls q + if wanted && able then 1 else 0)%nat /\
  fetchCalls (clearCache browser forceRefetch q) =
    (fetchCalls q + if wanted && able then 1 else 0)%nat /\
  fetchCalls (refetch browser q) =
    (fetchCalls q + if able then 1 else 0)%nat /\
  fetchCalls (invalidateAndRefetch browser q) =
    (fetchCalls q + if able then 1 else 0)%nat.
Proof.
  intros wanted able.
  split; [apply fetchCalls_markStale |].
  split; [apply fetchCalls_clearCache |].
  unfold refetch, invalidateAndRefetch.
  by rewrite fetchCalls_markStale, fetchCalls_clearCache.
Qed.

(** X9. [markStale] and [clearCache] are idempotent: calling either twice
    in a row leaves the query as one call does, with no staleness timer,
    and the second call invokes no fetch. *)
Theorem X9_marking_stale_twice_is_once forceRefetch q :
  markStale browser forceRefetch (markStale browser forceRefetch q)
    = markStale browser forceRefetch q /\
  clearCache browser forceRefetch (clearCache browser forceRefetch q)
    = clearCache browser forceRefetch q /\
  stale_timeout (stale (query (markStale browser forceRefetch q))) = None.
Proof.
  split; [| split].
  - unfold markStale, fetcher. simpl.
    destruct (forceRefetch || dataInUse q || stale_refetchIfUnused (options q))
      eqn:Hw; simpl; [| by rewrite Hw].
    destruct browser; simpl; [| by rewrite Hw].
    destruct (isFetching q) eqn:Hf; simpl; [by rewrite Hw, Hf |].
    destruct (decide (stoppedBy q = ∅)) as [He|Hne].
    + rewrite fetcher_loop_free by done. simpl. by rewrite Hw.
    + rewrite fetcher_loop_stopped by done. simpl. rewrite Hw. simpl.
      by rewrite fetcher_loop_stopped.
  - unfold clearCache, markStale, fetcher. simpl.
    destruct (forceRefetch || dataInUse q || stale_refetchIfUnused (options q))
      eqn:Hw; simpl; [| by rewrite Hw].
    destruct browser; simpl; [| by rewrite Hw].
    destruct (isFetching q) eqn:Hf; simpl; [by rewrite Hw, Hf |].
    destruct (decide (stoppedBy q = ∅)) as [He|Hne].
    + rewrite fetcher_loop_free by done. simpl. by rewrite Hw.
    + rewrite fetcher_loop_stopped by done. simpl. rewrite Hw. simpl.
      by rewrite fetcher_loop_stopped.
  - unfold markStale. case_match; [by rewrite query_fetcher | done].
Qed.

Lemma fetchCalls_blocked_fetcher q :
  stoppedBy q <> ∅ -> fetchCalls (fetcher browser q) = fetchCalls q.
Proof.
  intros Hne. rewrite fetchCalls_fetcher. case_bool_decide; [done |].
  rewrite andb_false_r. lia.
Qed.

Lemma fetchCalls_blocked_markStale force q :
  stoppedBy q <> ∅ -> fetchCalls (markStale browser force q) = fetchCalls q.
Proof.
  intros Hne. rewrite fetchCalls_markStale. case_bool_decide; [done |].
  rewrite !andb_false_r. lia.
Qed.

Lemma fetchCalls_blocked_clearCache force q :
  stoppedBy q <> ∅ -> fetchCalls (clearCache browser force q) = fetchCalls q.
Proof.
  intros Hne. rewrite fetchCalls_clearCache. case_bool_decide; [done |].
  rewrite !andb_false_r. lia.
Qed.

Lemma stoppedBy_fetcher_on_result now result count q q' :
  fetcher_on_result browser now result count q = Returned q' ->
  stoppedBy q' = stoppedBy q.
Proof.
  unfold fetcher_on_result, fetcher_finish. intros H.
  destruct result as [err b|err|data];
    cbn [current set_current] in H; cbv beta iota zeta in H.
  - destruct (onRetry _ _ _); injection H as <-.
    + destruct b; cbn [stoppedBy set_pc set_isFetching log_wait set_current];
        [by rewrite stoppedBy_clearCache | done].
    + cbn [stoppedBy set_pc set_isFetching]. by rewrite stoppedBy_clearCache.
  - injection H as <-. cbn [stoppedBy set_pc set_isFetching].
    by rewrite stoppedBy_clearCache.
  - by injection H as <-.
Qed.

Lemma fetchCalls_blocked_fetcher_on_result now result count q q' :
  stoppedBy q <> ∅ ->
  fetcher_on_result browser now result count q = Returned q' ->
  fetchCalls q' = fetchCalls q.
Proof.
  unfold fetcher_on_result, fetcher_finish. intros Hne H.
  destruct result as [err b|err|data];
    cbn [current set_current] in H; cbv beta iota zeta in H.
  - destruct (onRetry _ _ _); injection H as <-.
    + destruct b; cbn [fetchCalls set_pc set_isFetching log_wait set_current];
        [by rewrite fetchCalls_blocked_clearCache | done].
    + cbn [fetchCalls set_pc set_isFetching].
      by rewrite fetchCalls_blocked_clearCache.
  - injection H as <-. cbn [fetchCalls set_pc set_isFetching].
    by rewrite fetchCalls_blocked_clearCache.
  - by injection H as <-.
Qed.

Lemma stoppedBy_subscribe q : stoppedBy (subscribe browser q) = stoppedBy q.
Proof.
  unfold subscribe, refetch. repeat case_match; try done;
    by rewrite stoppedBy_markStale.
Qed.

(** X10. Dependency gating.  A step after which [stoppedBy] is not empty
    has not invoked the fetch function, whatever the step was: a blocked
    query never starts a fetch attempt, and a dependency that unblocks one
    index while another still blocks starts none either. *)
Theorem X10_blocked_query_invokes_no_fetch op q q' :
  step browser op q = Returned q' ->
  stoppedBy q' <> ∅ ->
  fetchCalls q' = fetchCalls q.
Proof.
  intros H Hne. destruct op; simpl in H.
  - injection H as <-. rewrite stoppedBy_fetcher in Hne.
    by apply fetchCalls_blocked_fetcher.
  - destruct (fetcher_pc q); try (by injection H as <-).
    rewrite (stoppedBy_fetcher_on_result _ _ _ _ _ H) in Hne.
    by eapply fetchCalls_blocked_fetcher_on_result.
  - destruct (fetcher_pc q); try (by injection H as <-).
    injection H as <-.
    assert (Hq : stoppedBy q <> ∅).
    { intros He. apply Hne. by rewrite fetcher_loop_free. }
    by rewrite fetcher_loop_stopped.
  - destruct (stale_timeout _); injection H as <-; [| done].
    rewrite stoppedBy_markStale in Hne.
    by apply fetchCalls_blocked_markStale.
  - destruct (cache_timeout _); injection H as <-; [| done].
    rewrite stoppedBy_clearCache in Hne.
    by apply fetchCalls_blocked_clearCache.
  - injection H as <-. rewrite stoppedBy_markStale in Hne.
    by apply fetchCalls_blocked_markStale.
  - injection H as <-. rewrite stoppedBy_clearCache in Hne.
    by apply fetchCalls_blocked_clearCache.
  - by injection H as <-.
  - injection H as <-. unfold resetStaleTimer. by case_match.
  - injection H as <-. rewrite stoppedBy_subscribe in Hne.
    unfold subscribe, refetch. repeat case_match; try done;
      by rewrite fetchCalls_blocked_markStale.
  - case_bool_decide; injection H as <-; [| done].
    unfold unsubscribe. by case_bool_decide.
  - injection H as <-. destruct result; simpl in *; try done.
    + unfold refetch in *. rewrite stoppedBy_markStale in Hne.
      by rewrite fetchCalls_blocked_markStale.
    + unfold invalidateAndRefetch in *. rewrite stoppedBy_clearCache in Hne.
      by rewrite fetchCalls_blocked_clearCache.
    + unfold invalidateAndRefetch in *. rewrite stoppedBy_clearCache in Hne.
      by rewrite fetchCalls_blocked_clearCache.
  - injection H as <-. destruct result; simpl in *; try done.
    + rewrite stoppedBy_markStale in Hne.
      by apply fetchCalls_blocked_markStale.
    + rewrite stoppedBy_clearCache in Hne.
      by apply fetchCalls_blocked_clearCache.
Qed.

(** X11. While a fetch is in flight, no method call, timer or dependency
    callback starts a second one: the fetch function is not invoked, the
    coroutine stays where it is suspended, and no retry timer is set. *)
Theorem X11_no_second_fetch_in_flight op q q' :
  is_resumption op = false ->
  isFetching q = true ->
  step browser op q = Returned q' ->
  fetchCalls q' = fetchCalls q /\
  fetcher_pc q' = fetcher_pc q /\
  retryWaits q' = retryWaits q /\
  isFetching q' = true.
Proof.
  intros Hop Hf H. destruct op; try discriminate Hop; simpl in H.
  - injection H as <-. by rewrite fetcher_busy.
  - destruct (stale_timeout _); injection H as <-; [| done].
    by rewrite markStale_busy.
  - destruct (cache_timeout _); injection H as <-; [| done].
    by rewrite clearCache_busy.
  - injection H as <-. by rewrite markStale_busy.
  - injection H as <-. by rewrite clearCache_busy.
  - by injection H as <-.
  - injection H as <-. unfold resetStaleTimer. by case_match.
  - injection H as <-. unfold subscribe, refetch.
    repeat case_match; try done; by rewrite markStale_busy.
  - case_bool_decide; injection H as <-; [| done].
    unfold unsubscribe. by case_bool_decide.
  - injection H as <-. unfold onChange_result, refetch, invalidateAndRefetch.
    destruct result; try done;
      by rewrite ?markStale_busy, ?clearCache_busy.
  - injection H as <-. destruct result; simpl; try done;
      by rewrite ?markStale_busy, ?clearCache_busy.
Qed.

End FetchTriggers.

(** ** What holds in every state a query reaches *)

Section ReachableStates.

Context {D E : Type}.
Variable browser : bool.
Implicit Types (q : Query D E) (op : Op D E).

(** *** Flight *)

Lemma flight_inv_fetcher q : flight_inv q -> flight_inv (fetcher browser q).
Proof.
  intros H. unfold fetcher.
  destruct browser; simpl; [| done].
  destruct (isStale _); simpl; [| done].
  destruct (isFetching q) eqn:Hf; simpl; [done |].
  unfold fetcher_loop. case_bool_decide; by split.
Qed.

Lemma flight_inv_markStale force q :
  flight_inv q -> flight_inv (markStale browser force q).
Proof.
  intros H. unfold markStale. case_match; [| done].
  by apply flight_inv_fetcher.
Qed.

Lemma flight_inv_clearCache force q :
  flight_inv q -> flight_inv (clearCache browser force q).
Proof. intros H. unfold clearCache. by apply flight_inv_markStale. Qed.

Lemma flight_inv_onChange_result i result q :
  flight_inv q -> flight_inv (onChange_result browser i result q).
Proof.
  intros H. destruct result; simpl; try done.
  - by apply flight_inv_markStale.
  - by apply flight_inv_clearCache.
  - by apply flight_inv_clearCache.
Qed.

Lemma flight_inv_fetcher_on_result now result count q q' :
  isFetching q = true ->
  fetcher_on_result browser now result count q = Returned q' ->
  flight_inv q'.
Proof.
  unfold fetcher_on_result, fetcher_finish. intros Hf H.
  destruct result as [err b|err|data];
    cbn [current set_current] in H; cbv beta iota zeta in H.
  - destruct (onRetry _ _ _); injection H as <-.
    + destruct b; [rewrite clearCache_busy by done |]; split; simpl; done.
    + rewrite clearCache_busy by done. split; simpl; done.
  - injection H as <-. rewrite clearCache_busy by done. split; simpl; done.
  - injection H as <-. split; simpl; done.
Qed.

Lemma step_keeps_flight_inv op q q' :
  step browser op q = Returned q' -> flight_inv q -> flight_inv q'.
Proof.
  intros H Hq. destruct op; simpl in H.
  - injection H as <-. by apply flight_inv_fetcher.
  - destruct (fetcher_pc q) eqn:Hpc; try (by injection H as <-).
    eapply flight_inv_fetcher_on_result; [| exact H].
    destruct Hq as [Hq _]. by rewrite Hpc in Hq.
  - destruct (fetcher_pc q) eqn:Hpc; try (by injection H as <-).
    injection H as <-. destruct Hq as [Hf Hcur]. rewrite Hpc in Hf.
    unfold fetcher_loop. case_bool_decide; [by split |].
    split; [done |]. simpl. rewrite Hf in Hcur.
    destruct (current q) as [| |[|] e|d]; done.
  - destruct (stale_timeout _); injection H as <-;
      [by apply flight_inv_markStale | done].
  - destruct (cache_timeout _); injection H as <-;
      [by apply flight_inv_clearCache | done].
  - injection H as <-. by apply flight_inv_markStale.
  - injection H as <-. by apply flight_inv_clearCache.
  - injection H as <-. destruct Hq as [Hf Hcur]. by split.
  - injection H as <-. unfold resetStaleTimer. by case_match.
  - injection H as <-. unfold subscribe, refetch. repeat case_match; try done.
    all: by apply flight_inv_markStale.
  - case_bool_decide; injection H as <-; [| done].
    unfold unsubscribe. by case_bool_decide.
  - injection H as <-. by apply flight_inv_onChange_result.
  - injection H as <-. destruct result; simpl; try done.
    + by apply flight_inv_markStale.
    + by apply flight_inv_clearCache.
Qed.

Lemma flight_inv_subscribeToDependencies first_onChange q :
  flight_inv q -> flight_inv (subscribeToDependencies browser first_onChange q).
Proof.
  unfold subscribeToDependencies.
  generalize (imap (fun i d => (i, d)) (dependencies (options q))).
  intros deps. revert q.
  induction deps as [|[i d] deps IH]; intros q Hq; [done |].
  simpl. apply IH. unfold wire_dependency. simpl.
  destruct d; [done | by apply flight_inv_onChange_result].
Qed.

(** With both duration functions there, the invariant holds in every state
    a query reaches. *)
Lemma reachable_flight_inv q : reachable browser q -> flight_inv q.
Proof.
  induction 1 as [opts oc | q op q' _ IH Hstep].
  - apply flight_inv_fetcher.
    by apply flight_inv_subscribeToDependencies.
  - by eapply step_keeps_flight_inv.
Qed.

(** *** On the server *)

Lemma markStale_server force q :
  markStale false force q =
  set_query (mkItem (mkStale None None None true) (cache (query q))) q.
Proof. unfold markStale. by case_match. Qed.

Lemma clearCache_server force q :
  clearCache false force q =
  set_query
    (mkItem (mkStale None None None true)
            (mkCache None None None false (cache_data (cache (query q))))) q.
Proof. unfold clearCache. by rewrite markStale_server. Qed.

Lemma server_inv_onChange_result i result q :
  server_inv q -> server_inv (onChange_result false i result q).
Proof.
  intros H. destruct result; simpl; try done;
    unfold refetch, invalidateAndRefetch;
    by rewrite ?markStale_server, ?clearCache_server.
Qed.

Lemma step_keeps_server_inv op q q' :
  step false op q = Returned q' -> server_inv q -> server_inv q'.
Proof.
  intros H Hq. pose proof Hq as [(Hn & Hw & Hf & Hpc) Hcur].
  destruct op; simpl in H.
  - by injection H as <-.
  - rewrite Hpc in H. by injection H as <-.
  - rewrite Hpc in H. by injection H as <-.
  - destruct (stale_timeout _); injection H as <-; [| done].
    by rewrite markStale_server.
  - destruct (cache_timeout _); injection H as <-; [| done].
    by rewrite clearCache_server.
  - injection H as <-. by rewrite markStale_server.
  - injection H as <-. by rewrite clearCache_server.
  - injection H as <-. split; [done |]. right. by eexists.
  - injection H as <-. unfold resetStaleTimer. by case_match.
  - injection H as <-. unfold subscribe, refetch.
    repeat case_match; try done; by rewrite markStale_server.
  - case_bool_decide; injection H as <-; [| done].
    unfold unsubscribe. by case_bool_decide.
  - injection H as <-. by apply server_inv_onChange_result.
  - injection H as <-. destruct result; simpl; try done;
      by rewrite ?markStale_server, ?clearCache_server.
Qed.

(** X14. Outside the browser a query never fetches: in every state it
    reaches the fetch function has not been invoked, no retry timer has been
    set, no fetch is in flight, and [current] is idle unless [setData] has
    put data there. *)
Theorem X14_no_fetch_outside_the_browser q :
  reachable false q ->
  fetchCalls q = 0%nat /\ retryWaits q = [] /\
  isFetching q = false /\ fetcher_pc q = NotRunning /\
  (current q = Idle \/ exists d, current q = Ok d).
Proof.
  intros Hq.
  assert (Hinv : server_inv q).
  { induction Hq as [opts oc | q op q' _ IH Hstep].
    - unfold Query_new. change (fetcher false ?x) with x.
      unfold subscribeToDependencies.
      generalize (imap (fun i d => (i, d))
                       (dependencies (options (Query_fields opts)))).
      assert (H0 : server_inv (Query_fields opts)) by (split; [done | by left]).
      revert H0. generalize (Query_fields opts).
      intros q0 H0 deps. revert q0 H0.
      induction deps as [|[i d] deps IH]; intros q0 H0; [done |].
      simpl. apply IH. unfold wire_dependency. simpl.
      destruct d; [done | by apply server_inv_onChange_result].
    - by eapply step_keeps_server_inv. }
  destruct Hinv as [(Hn & Hw & Hf & Hpc) Hcur]. by repeat split.
Qed.

(** *** The timer fields *)

Ltac solve_timers :=
  unfold timers_inv in *; simpl in *; intuition (auto; congruence).

Lemma timers_inv_markStale force q :
  timers_inv (query q) -> timers_inv (query (markStale browser force q)).
Proof.
  intros H. unfold markStale.
  case_match; [rewrite query_fetcher |]; solve_timers.
Qed.

Lemma timers_inv_clearCache force q :
  timers_inv (query (clearCache browser force q)).
Proof.
  unfold clearCache, markStale.
  case_match; [rewrite query_fetcher |]; solve_timers.
Qed.

Lemma timers_inv_resetStaleTimer now cur q :
  timers_inv (query q) -> timers_inv (query (resetStaleTimer now cur q)).
Proof.
  intros H. unfold resetStaleTimer.
  destruct (stale_duration_fn _ _); solve_timers.
Qed.

Lemma timers_inv_setData now data q : timers_inv (query (setData now data q)).
Proof.
  unfold setData, resetStaleTimer. simpl.
  destruct (stale_duration_fn _ _); destruct (cache_duration_fn _ _);
    solve_timers.
Qed.

Lemma timers_inv_onChange_result i result q :
  timers_inv (query q) ->
  timers_inv (query (onChange_result browser i result q)).
Proof.
  intros H. destruct result; simpl; try done.
  - by apply (timers_inv_markStale true (set_stoppedBy _ q)).
  - apply timers_inv_clearCache.
  - apply timers_inv_clearCache.
Qed.

Lemma step_keeps_timers_inv op q q' :
  step browser op q = Returned q' ->
  timers_inv (query q) -> timers_inv (query q').
Proof.
  intros H Hq. destruct op; simpl in H.
  - injection H as <-. by rewrite query_fetcher.
  - destruct (fetcher_pc q); try (by injection H as <-).
    unfold fetcher_on_result, fetcher_finish in H.
    destruct result as [err b|err|data];
      cbn [current set_current] in H; cbv beta iota zeta in H.
    + destruct (onRetry _ _ _); injection H as <-.
      * destruct b; [apply (timers_inv_clearCache false q) | done].
      * apply (timers_inv_clearCache false (set_current (Err false err) q)).
    + injection H as <-.
      apply (timers_inv_clearCache false (set_current (Err false err) q)).
    + injection H as <-.
      apply (timers_inv_setData now data (set_current (Ok data) q)).
  - destruct (fetcher_pc q); try (by injection H as <-).
    injection H as <-. by rewrite query_fetcher_loop.
  - destruct (stale_timeout _); injection H as <-;
      [by apply timers_inv_markStale | done].
  - destruct (cache_timeout _); injection H as <-;
      [apply timers_inv_clearCache | done].
  - injection H as <-. by apply timers_inv_markStale.
  - injection H as <-. apply timers_inv_clearCache.
  - injection H as <-. apply timers_inv_setData.
  - injection H as <-. by apply timers_inv_resetStaleTimer.
  - injection H as <-. unfold subscribe, refetch. repeat case_match; try done.
    all: by apply (timers_inv_markStale _ (set_dataInUse true _)).
  - case_bool_decide; injection H as <-; [| done].
    unfold unsubscribe. by case_bool_decide.
  - injection H as <-. by apply timers_inv_onChange_result.
  - injection H as <-. destruct result; simpl; try done.
    + by apply timers_inv_markStale.
    + apply timers_inv_clearCache.
Qed.

Lemma timers_inv_subscribeToDependencies first_onChange q :
  timers_inv (query q) ->
  timers_inv (query (subscribeToDependencies browser first_onChange q)).
Proof.
  unfold subscribeToDependencies.
  generalize (imap (fun i d => (i, d)) (dependencies (options q))).
  intros deps. revert q.
  induction deps as [|[i d] deps IH]; intros q Hq; [done |].
  simpl. apply IH. unfold wire_dependency. simpl.
  destruct d; [done | by apply timers_inv_onChange_result].
Qed.

Lemma timers_inv_Query_new (opts : UseQueryOptions D E) first_onChange :
  timers_inv (query (Query_new browser opts first_onChange)).
Proof.
  unfold Query_new. rewrite query_fetcher.
  apply timers_inv_subscribeToDependencies. solve_timers.
Qed.

(** *** Subscribers *)

Lemma same_subs_fetcher q : same_subs q (fetcher browser q).
Proof. unfold same_subs, fetcher, fetcher_loop. by repeat case_match. Qed.

Lemma same_subs_markStale force q : same_subs q (markStale browser force q).
Proof.
  unfold markStale. case_match; [| done].
  apply (same_subs_fetcher (set_query _ q)).
Qed.

Lemma same_subs_clearCache force q : same_subs q (clearCache browser force q).
Proof. unfold clearCache. apply (same_subs_markStale force (set_query _ q)). Qed.

Lemma same_subs_inv q q' : same_subs q q' -> subs_inv q -> subs_inv q'.
Proof. unfold same_subs, subs_inv. by intros [-> ->]. Qed.

Lemma same_subs_fetcher_on_result now result count q q' :
  fetcher_on_result browser now result count q = Returned q' ->
  same_subs q q'.
Proof.
  unfold fetcher_on_result, fetcher_finish. intros H.
  destruct result as [err b|err|data];
    cbn [current set_current] in H; cbv beta iota zeta in H.
  - destruct (onRetry _ _ _); injection H as <-.
    + destruct b; [apply (same_subs_clearCache false q) | done].
    + apply (same_subs_clearCache false (set_current (Err false err) q)).
  - injection H as <-.
    apply (same_subs_clearCache false (set_current (Err false err) q)).
  - by injection H as <-.
Qed.

Lemma same_subs_onChange_result i result q :
  same_subs q (onChange_result browser i result q).
Proof.
  destruct result; simpl; try done.
  - apply (same_subs_markStale true (set_stoppedBy _ q)).
  - apply (same_subs_clearCache true (set_stoppedBy _ q)).
  - apply (same_subs_clearCache true (set_stoppedBy _ q)).
Qed.

Lemma subs_inv_subscribe q : subs_inv q -> subs_inv (subscribe browser q).
Proof.
  intros H. unfold subscribe, refetch. cbv zeta.
  cbn [subscribers set_subscribers].
  case_bool_decide as H1.
  - set (q2 := set_dataInUse true (set_subscribers (S (subscribers q)) q)).
    assert (H2 : subs_inv q2).
    { unfold subs_inv, q2. simpl. done. }
    repeat case_match; try done.
    all: by eapply same_subs_inv; [apply same_subs_markStale |].
  - unfold subs_inv in *. simpl. rewrite H. apply bool_decide_eq_true. lia.
Qed.

Lemma step_keeps_subs_inv op q q' :
  step browser op q = Returned q' -> subs_inv q -> subs_inv q'.
Proof.
  intros H Hq. destruct op; simpl in H.
  - injection H as <-. by eapply same_subs_inv; [apply same_subs_fetcher |].
  - destruct (fetcher_pc q); try (by injection H as <-).
    by eapply same_subs_inv; [eapply same_subs_fetcher_on_result |].
  - destruct (fetcher_pc q); try (by injection H as <-).
    injection H as <-. unfold fetcher_loop. by case_bool_decide.
  - destruct (stale_timeout _); injection H as <-; [| done].
    by eapply same_subs_inv; [apply same_subs_markStale |].
  - destruct (cache_timeout _); injection H as <-; [| done].
    by eapply same_subs_inv; [apply same_subs_clearCache |].
  - injection H as <-. by eapply same_subs_inv; [apply same_subs_markStale |].
  - injection H as <-. by eapply same_subs_inv; [apply same_subs_clearCache |].
  - by injection H as <-.
  - injection H as <-. unfold resetStaleTimer. by case_match.
  - injection H as <-. by apply subs_inv_subscribe.
  - case_bool_decide as Hpos; injection H as <-; [| done].
    unfold unsubscribe. cbv zeta. cbn [subscribers set_subscribers].
    destruct (decide (Nat.pred (subscribers q) = 0%nat)) as [H0|H0].
    + rewrite bool_decide_eq_true_2 by done. unfold subs_inv. simpl.
      symmetry. apply bool_decide_eq_false. lia.
    + rewrite bool_decide_eq_false_2 by done. unfold subs_inv in *. simpl.
      rewrite Hq. by rewrite !bool_decide_eq_true_2 by lia.
  - injection H as <-.
    by eapply same_subs_inv; [apply same_subs_onChange_result |].
  - injection H as <-. destruct result; simpl; try done.
    + by eapply same_subs_inv; [apply same_subs_markStale |].
    + by eapply same_subs_inv; [apply same_subs_clearCache |].
Qed.

Lemma reachable_subs_inv q : reachable browser q -> subs_inv q.
Proof.
  induction 1 as [opts oc | q op q' _ IH Hstep].
  - unfold Query_new.
    eapply same_subs_inv; [apply same_subs_fetcher |].
    unfold subscribeToDependencies.
    generalize (imap (fun i d => (i, d))
                     (dependencies (options (Query_fields opts)))).
    assert (H0 : subs_inv (Query_fields opts : Query D E)) by done.
    revert H0. generalize (Query_fields opts : Query D E).
    intros q0 H0 deps. revert q0 H0.
    induction deps as [|[i d] deps IH]; intros q0 H0; [done |].
    simpl. apply IH. unfold wire_dependency. simpl.
    destruct d; [done |].
    by eapply same_subs_inv; [apply same_subs_onChange_result |].
  - by eapply step_keeps_subs_inv.
Qed.

(** X16. [dataInUse] counts as it should: in every state a query reaches
    (each unsubscriber being called once), the flag is true exactly while
    at least one subscriber is attached to [query.current]. *)
Theorem X16_in_use_iff_subscribed q :
  reachable browser q ->
  (dataInUse q = true <-> 0 < subscribers q)%nat.
Proof.
  intros Hq. rewrite (reachable_subs_inv q Hq).
  apply bool_decide_eq_true.
Qed.

(** X17. Only the first subscriber can start a fetch.  Subscribing to a
    query in any state it has reached invokes the fetch function exactly
    when nobody was subscribed, the code runs in the browser, no fetch is in
    flight and no dependency blocks the query, whatever
    [stale.onSubscribeIfUnused] says; afterwards the query is in use. *)
Theorem X17_first_subscriber_starts_the_fetch q :
  reachable browser q ->
  fetchCalls (subscribe browser q) =
    (fetchCalls q +
     if bool_decide (subscribers q = 0%nat) && browser
        && negb (isFetching q) && bool_decide (stoppedBy q = ∅)
     then 1 else 0)%nat /\
  dataInUse (subscribe browser q) = true /\
  subscribers (subscribe browser q) = S (subscribers q).
Proof.
  intros Hq.
  pose proof (reachable_stale_flag browser q Hq) as Hs.
  pose proof (reachable_subs_inv q Hq) as Hsub.
  unfold stale_flag in Hs. unfold subs_inv in Hsub.
  unfold subscribe, refetch. cbn [subscribers set_subscribers].
  destruct (decide (subscribers q = 0%nat)) as [H0|H0].
  - rewrite H0. rewrite !bool_decide_eq_true_2 by done.
    cbv beta iota zeta. cbn [options set_dataInUse set_subscribers query stale].
    rewrite Hs.
    set (q2 := set_dataInUse true (set_subscribers 1 q)).
    assert (Hcalls : forall force,
      fetchCalls (markStale browser force q2) =
      (fetchCalls q +
       if true && browser && negb (isFetching q)
          && bool_decide (stoppedBy q = ∅) then 1 else 0)%nat).
    { intros force. rewrite fetchCalls_markStale. unfold q2. simpl.
      by rewrite orb_true_r. }
    destruct (stale_onSubscribeIfUnused (options q)).
    + rewrite Hcalls. split; [done |].
      destruct (same_subs_markStale false q2) as [Hd Hn]. by rewrite Hd, Hn.
    + rewrite Hcalls. split; [done |].
      destruct (same_subs_markStale true q2) as [Hd Hn]. by rewrite Hd, Hn.
  - rewrite (bool_decide_eq_false_2 (S (subscribers q) = 1%nat)) by lia.
    rewrite (bool_decide_eq_false_2 (subscribers q = 0%nat)) by done.
    simpl. split; [lia |]. split; [| done].
    rewrite Hsub. apply bool_decide_eq_true. lia.
Qed.

(** *** What subscribers see *)


End ReachableStates.

(** ** Whole runs of the fetch loop *)

Section FetchRuns.

Context {D E : Type}.
Variable clock : nat -> Z.
Variable fetchFn : nat -> FetchResult D E.
Implicit Types (q : Query D E) (opts : UseQueryOptions D E).

(** The two ways a resumed fetch ends the loop. *)
Lemma run_ok browser opts count n ws q data :
  in_flight opts count n ws q ->
  fetchFn (Nat.pred n) = FOk data ->
  exists q',
    (forall fuel,
       run_fetcher browser (S fuel) clock fetchFn q = Some (Returned q')) /\
    current q' = Ok data /\ fetchCalls q' = n /\ retryWaits q' = ws /\
    fetcher_pc q' = NotRunning /\ isFetching q' = false /\
    hasCached (cache (query q')) = true /\
    cache_data (cache (query q')) = Some data /\
    exposed q' = Ok data.
Proof.
  intros (Ho & Hpc & Hf & He & Hn & Hw) Hfn.
  eexists. split.
  - intros fuel. rewrite (run_fetcher_resolve _ _ _ _ count) by done.
    rewrite Hn, Hfn. unfold fetcher_on_result, fetcher_finish.
    cbn [current set_current]. cbv beta iota.
    by rewrite run_fetcher_done.
  - cbn [current set_pc set_isFetching fetchCalls retryWaits fetcher_pc
         isFetching query].
    split; [done |]. split; [done |]. split; [done |]. split; [done |].
    split; [done |].
    pose proof (exposed_setData (clock (Nat.pred n)) data
                  (set_current (Ok data) q)) as Hexp.
    split; [| split; [| exact Hexp]]; unfold setData; simpl; by case_match.
Qed.

Lemma run_err browser opts count n ws q e :
  in_flight opts count n ws q ->
  fetchFn (Nat.pred n) = FErr e ->
  exists q',
    (forall fuel,
       run_fetcher browser (S fuel) clock fetchFn q = Some (Returned q')) /\
    current q' = Err false e /\ fetchCalls q' = n /\ retryWaits q' = ws /\
    fetcher_pc q' = NotRunning /\ isFetching q' = false /\
    hasCached (cache (query q')) = false.
Proof.
  intros (Ho & Hpc & Hf & He & Hn & Hw) Hfn.
  eexists. split.
  - intros fuel. rewrite (run_fetcher_resolve _ _ _ _ count) by done.
    rewrite Hn, Hfn. unfold fetcher_on_result, fetcher_finish.
    cbn [current set_current]. cbv beta iota.
    rewrite clearCache_busy by done.
    by rewrite run_fetcher_done.
  - by simpl.
Qed.

Lemma retries_exact browser opts (errs : nat -> E) (ws : list Z) :
  forall count n ws0 q,
    in_flight opts count (S n) ws0 q ->
    (forall k, exists b, fetchFn k = FRetry (errs k) b) ->
    (forall i w, ws !! i = Some w ->
       onRetry opts (S (count + i)) (errs (n + i)%nat) = Some w) ->
    onRetry opts (S (count + length ws)) (errs (n + length ws)%nat) = None ->
    exists q',
      run_fetcher browser (2 * length ws + 1) clock fetchFn q
        = Some (Returned q') /\
      fetchCalls q' = (S n + length ws)%nat /\
      retryWaits q' = ws0 ++ ws /\
      current q' = Err false (errs (n + length ws)%nat) /\
      fetcher_pc q' = NotRunning /\ isFetching q' = false.
Proof.
  induction ws as [|w ws IH]; intros count n ws0 q Hq Hall Hgrant Hstop.
  - destruct (Hall n) as [b Hb]. cbn [length] in *.
    rewrite !Nat.add_0_r in Hstop.
    destruct (run_give_up browser clock fetchFn opts count (S n) ws0 q
                (errs n) b Hq Hb Hstop)
      as (q' & Hrun & Hc & Hn & Hw & Hpc & Hf).
    exists q'. rewrite !Nat.add_0_r, app_nil_r.
    split; [apply (Hrun 0%nat) | done].
  - destruct (Hall n) as [b Hb].
    assert (Hw0 : onRetry opts (S count) (errs n) = Some w).
    { specialize (Hgrant 0%nat w eq_refl).
      by rewrite !Nat.add_0_r in Hgrant. }
    destruct (run_retry_round browser clock fetchFn opts count (S n) ws0 q
                (errs n) b w Hq Hb Hw0) as (q2 & Hq2 & Hrun).
    destruct (IH (S count) (S n) (ws0 ++ [w]) q2 Hq2 Hall) as
      (q' & Hrun' & Hn & Hw & Hc & Hpc & Hf).
    { intros i w' Hi. specialize (Hgrant (S i) w' Hi).
      by rewrite !Nat.add_succ_r in Hgrant. }
    { cbn [length] in Hstop. by rewrite !Nat.add_succ_r in Hstop. }
    exists q'.
    replace (2 * length (w :: ws) + 1)%nat
      with (S (S (2 * length ws + 1))) by (cbn [length]; lia).
    rewrite Hrun, Hrun'. cbn [length].
    rewrite Hn, Hw, Hc, <- app_assoc.
    rewrite !Nat.add_succ_r. by repeat split.
Qed.

(** X19. Retries follow the policy exactly.  When every attempt asks for
    a retry and [onRetry] grants the delays [ws] for the counts 1 to [n]
    and answers [false] for the count [n + 1], the fetch function is invoked
    [n + 1] times, the retry timers are set for exactly the delays [ws] in
    order, and the loop ends with [current] at the last error, not
    refetching. *)
Theorem X19_retries_follow_the_policy (errs : nat -> E) (ws : list Z) q :
  stale_flag q = true -> isFetching q = false -> stoppedBy q = ∅ ->
  (forall k, exists b, fetchFn k = FRetry (errs k) b) ->
  (forall i w, ws !! i = Some w ->
     onRetry (options q) (S i) (errs (fetchCalls q + i)%nat) = Some w) ->
  onRetry (options q) (S (length ws)) (errs (fetchCalls q + length ws)%nat)
    = None ->
  exists q',
    run_fetcher true (2 * length ws + 1) clock fetchFn (fetcher true q)
      = Some (Returned q') /\
    fetchCalls q' = (fetchCalls q + length ws + 1)%nat /\
    retryWaits q' = retryWaits q ++ ws /\
    current q' = Err false (errs (fetchCalls q + length ws)%nat) /\
    fetcher_pc q' = NotRunning /\ isFetching q' = false.
Proof.
  intros Hs Hf He Hall Hgrant Hstop.
  pose proof (fetcher_enters true q eq_refl Hs Hf He) as H0.
  destruct (retries_exact true (options q) errs ws 0 (fetchCalls q)
              (retryWaits q) (fetcher true q) H0 Hall Hgrant Hstop)
    as (q' & Hr & Hn & Hrest).
  exists q'. split; [exact Hr |]. split; [lia | exact Hrest].
Qed.

Lemma bounded_run browser opts (bound : nat) :
  (forall e, onRetry opts (S bound) e = None) ->
  forall m count n ws0 q,
    (count + m)%nat = bound ->
    in_flight opts count n ws0 q ->
    exists q',
      run_fetcher browser (2 * m + 1) clock fetchFn q = Some (Returned q') /\
      fetcher_pc q' = NotRunning /\ isFetching q' = false /\
      settled (current q') = true /\
      (fetchCalls q' <= n + m)%nat /\
      (length (retryWaits q') <= length ws0 + m)%nat.
Proof.
  intros Hbound. induction m as [|m IH]; intros count n ws0 q Hcm Hq.
  - change (2 * 0 + 1)%nat with 1%nat.
    destruct (fetchFn (Nat.pred n)) as [e b|e|d] eqn:Hfn.
    + destruct (run_give_up browser clock fetchFn opts count n ws0 q e b Hq Hfn)
        as (q' & Hrun & Hc & Hn & Hw & Hpc & Hf).
      { rewrite Nat.add_0_r in Hcm. subst count. apply Hbound. }
      exists q'. rewrite Hrun, Hc, Hn, Hw. repeat split; try done; lia.
    + destruct (run_err browser opts count n ws0 q e Hq Hfn)
        as (q' & Hrun & Hc & Hn & Hw & Hpc & Hf & _).
      exists q'. rewrite Hrun, Hc, Hn, Hw. repeat split; try done; lia.
    + destruct (run_ok browser opts count n ws0 q d Hq Hfn)
        as (q' & Hrun & Hc & Hn & Hw & Hpc & Hf & _).
      exists q'. rewrite Hrun, Hc, Hn, Hw. repeat split; try done; lia.
  - replace (2 * S m + 1)%nat with (S (S (2 * m + 1))) by lia.
    destruct (fetchFn (Nat.pred n)) as [e b|e|d] eqn:Hfn.
    + destruct (onRetry opts (S count) e) as [w|] eqn:Hr.
      * destruct (run_retry_round browser clock fetchFn opts count n ws0 q
                    e b w Hq Hfn Hr) as (q2 & Hq2 & Hrun).
        destruct (IH (S count) (S n) (ws0 ++ [w]) q2 ltac:(lia) Hq2)
          as (q' & Hrun' & Hpc & Hf & Hc & Hn & Hw).
        exists q'. rewrite Hrun, Hrun'. rewrite length_app in Hw. simpl in Hw.
        repeat split; try done; lia.
      * destruct (run_give_up browser clock fetchFn opts count n ws0 q e b
                    Hq Hfn Hr) as (q' & Hrun & Hc & Hn & Hw & Hpc & Hf).
        exists q'. rewrite Hrun, Hc, Hn, Hw. repeat split; try done; lia.
    + destruct (run_err browser opts count n ws0 q e Hq Hfn)
        as (q' & Hrun & Hc & Hn & Hw & Hpc & Hf & _).
      exists q'. rewrite Hrun, Hc, Hn, Hw. repeat split; try done; lia.
    + destruct (run_ok browser opts count n ws0 q d Hq Hfn)
        as (q' & Hrun & Hc & Hn & Hw & Hpc & Hf & _).
      exists q'. rewrite Hrun, Hc, Hn, Hw. repeat split; try done; lia.
Qed.

(** With both duration functions there, a fetch under a policy that gives
    up at the count [bound + 1] returns. *)
Lemma bounded_fetch_returns (bound : nat) q :
  stale_flag q = true -> isFetching q = false -> stoppedBy q = ∅ ->
  (forall e, onRetry (options q) (S bound) e = None) ->
  exists q',
    run_fetcher true (2 * bound + 1) clock fetchFn (fetcher true q)
      = Some (Returned q') /\
    fetcher_pc q' = NotRunning /\ isFetching q' = false /\
    settled (current q') = true /\
    (fetchCalls q' <= fetchCalls q + bound + 1)%nat /\
    (length (retryWaits q') <= length (retryWaits q) + bound)%nat.
Proof.
  intros Hs Hf He Hbound.
  pose proof (fetcher_enters true q eq_refl Hs Hf He) as H0.
  destruct (bounded_run true (options q) bound Hbound bound 0
              (S (fetchCalls q)) (retryWaits q) (fetcher true q) eq_refl H0)
    as (q' & Hrun & Hpc & Hfin & Hc & Hn & Hw).
  exists q'. repeat split; try done; lia.
Qed.

(** With both duration functions there: [invalidateAndRefetch], then a
    fetch that resolves to [ok]. *)
Lemma invalidate_round_trip q data :
  isFetching q = false -> stoppedBy q = ∅ ->
  fetchFn (fetchCalls q) = FOk data ->
  let q1 := invalidateAndRefetch true q in
  (hasCached (cache (query q1)) = false /\ exposed q1 = Loading /\
   isFetching q1 = true /\ fetchCalls q1 = S (fetchCalls q)) /\
  exists q',
    run_fetcher true 1 clock fetchFn q1 = Some (Returned q') /\
    exposed q' = Ok data /\
    hasCached (cache (query q')) = true /\
    cache_data (cache (query q')) = Some data /\
    isFetching q' = false /\ fetchCalls q' = S (fetchCalls q).
Proof.
  intros Hf He Hfn q1.
  assert (Hq1 : q1 = set_pc (AwaitFetch 0) (call_fetch
            (set_current Loading (set_isFetching true
              (set_query (mkItem (mkStale None None None true)
                 (mkCache None None None false (cache_data (cache (query q)))))
                 q))))).
  { unfold q1, invalidateAndRefetch, clearCache, markStale, fetcher. simpl.
    rewrite Hf. simpl. by rewrite fetcher_loop_free. }
  split; [by rewrite Hq1 |].
  assert (Hin : in_flight (options q) 0 (S (fetchCalls q)) (retryWaits q) q1)
    by (by rewrite Hq1).
  destruct (run_ok true (options q) 0 (S (fetchCalls q)) (retryWaits q) q1
              data Hin Hfn)
    as (q' & Hrun & Hc & Hn & Hw & Hpc & Hfin & Hh & Hd & Hexp).
  exists q'. by rewrite Hrun.
Qed.

End FetchRuns.

(** ** Serving the cache *)

Section ServingTheCache.

Context {D E : Type}.
Variable browser : bool.
Implicit Types (q : Query D E).

Lemma exposed_cached (cur : QueryResult D E) item d :
  hasCached (cache item) = true -> cache_data (cache item) = Some d ->
  isStale (stale item) = true -> cur <> Idle ->
  currentWithCaching_ cur item = Ok d.
Proof.
  unfold currentWithCaching_. intros -> -> -> Hc. by destruct cur.
Qed.

(** X22. Stale while revalidating.  A query with cached data that no
    dependency blocks keeps exposing that data when it is marked stale or
    refetched, and while the refetch is retried without [returnError].  A
    retry with [returnError] drops the cache: the query then exposes
    loading, and [current] holds the error as refetching. *)
Theorem X22_cached_data_is_served_while_refetching q d :
  hasCached (cache (query q)) = true ->
  cache_data (cache (query q)) = Some d ->
  current q <> Idle -> stoppedBy q = ∅ ->
  (forall forceRefetch,
     exposed (markStale browser forceRefetch q) = Ok d /\
     hasCached (cache (query (markStale browser forceRefetch q))) = true) /\
  (forall now e count w,
     stale_flag q = true -> isFetching q = true ->
     onRetry (options q) (S count) e = Some w ->
     (exists q', fetcher_on_result browser now (FRetry e false) count q
                 = Returned q' /\ exposed q' = Ok d) /\
     (exists q', fetcher_on_result browser now (FRetry e true) count q
                 = Returned q' /\ exposed q' = Loading /\
                 current q' = Err true e /\
                 hasCached (cache (query q')) = false)).
Proof.
  intros Hh Hd Hc He. split.
  - intros force. unfold markStale.
    set (q1 := set_query _ q).
    assert (H1 : exposed q1 = Ok d) by (by apply exposed_cached).
    case_match; [| done].
    unfold exposed. rewrite query_fetcher. split; [| done].
    apply exposed_cached; try done.
    unfold fetcher. repeat case_match; try done.
    rewrite fetcher_loop_free by done. done.
  - intros now e count w Hs Hf Hr. unfold fetcher_on_result. rewrite Hr.
    split; eexists; (split; [reflexivity |]).
    + by apply exposed_cached.
    + rewrite clearCache_busy by done. by repeat split.
Qed.

(** With both duration functions there: [setData] while a fetch is in
    flight, and the fetch resolving afterwards. *)
Lemma update_in_flight now data count q :
  isFetching q = true -> fetcher_pc q = AwaitFetch count ->
  let q1 := setData now data q in
  (exposed q1 = Ok data /\ isFetching q1 = true /\
   fetcher_pc q1 = AwaitFetch count /\ fetchCalls q1 = fetchCalls q) /\
  (forall later data',
     exists q', step browser (OpFetchResolved later (FOk data')) q1
                = Returned q' /\
                exposed q' = Ok data' /\
                cache_data (cache (query q')) = Some data') /\
  (forall later e,
     exists q', step browser (OpFetchResolved later (FErr e)) q1
                = Returned q' /\
                exposed q' = Loading /\
                hasCached (cache (query q')) = false /\
                current q' = Err false e).
Proof.
  intros Hf Hpc q1.
  assert (Hpc1 : fetcher_pc q1 = AwaitFetch count) by done.
  assert (Hf1 : isFetching q1 = true) by done.
  split; [| split].
  - split; [apply exposed_setData | done].
  - intros later data'. simpl. rewrite Hpc.
    eexists. split; [reflexivity |]. split.
    + apply (exposed_setData later data' (set_current (Ok data') q1)).
    + unfold setData. simpl. by case_match.
  - intros later e. simpl. rewrite Hpc.
    unfold fetcher_on_result, fetcher_finish. cbn [current set_current].
    cbv beta iota. rewrite clearCache_busy by done.
    eexists. split; [reflexivity |]. by repeat split.
Qed.

End ServingTheCache.

(** ** Dependencies at construction *)

Section ConstructionBlocking.

Context {D E : Type}.
Variable browser : bool.
Variable first_onChange : nat -> OnChangeResult.
Implicit Types (q : Query D E) (l : list QueryDependency).

Lemma idle_unfetched_fetcher q :
  stoppedBy q <> ∅ -> idle_unfetched q -> idle_unfetched (fetcher browser q).
Proof.
  intros Hne [(Hn & Hw & Hf & Hpc) Hc]. unfold fetcher.
  repeat case_match; try done.
  rewrite fetcher_loop_stopped by done. by repeat split.
Qed.

Lemma idle_unfetched_markStale force q :
  stoppedBy q <> ∅ -> idle_unfetched q ->
  idle_unfetched (markStale browser force q).
Proof.
  intros Hne H. unfold markStale. case_match; [| done].
  by apply idle_unfetched_fetcher.
Qed.

Lemma idle_unfetched_clearCache force q :
  stoppedBy q <> ∅ -> idle_unfetched q ->
  idle_unfetched (clearCache browser force q).
Proof.
  intros Hne H. unfold clearCache. by apply idle_unfetched_markStale.
Qed.

Lemma blocked_by (X : gset nat) i : i ∈ X -> X <> ∅.
Proof. intros H ->. by apply not_elem_of_empty in H. Qed.

(** Wiring the dependencies in front of the query dependency. *)
Lemma wire_quiet l : forall k q,
  (forall j, l !! j = Some DepSubscription ->
     first_onChange (k + j) = Nothing \/ first_onChange (k + j) = Stop) ->
  idle_unfetched q ->
  idle_unfetched
    (foldl (wire_dependency browser first_onChange) q
           (imap (fun j d => ((k + j)%nat, d)) l)).
Proof.
  induction l as [|d l IH]; intros k q Hl Hq; [done |].
  rewrite imap_cons. simpl.
  rewrite (imap_ext _ (fun j d => ((S k + j)%nat, d))).
  2: { intros j x _. simpl. f_equal. lia. }
  apply IH.
  - intros j Hj. replace (S k + j)%nat with (k + S j)%nat by lia.
    by apply Hl.
  - unfold wire_dependency. simpl. destruct d; [done |].
    destruct (Hl 0%nat eq_refl) as [-> | ->]; simpl; [done |].
    apply idle_unfetched_clearCache; [| done].
    apply (blocked_by _ (k + 0)%nat). simpl.
    apply elem_of_union_l. by apply elem_of_singleton.
Qed.

(** Wiring the dependencies behind it. *)
Lemma wire_blocked i l : forall k q,
  (i < k)%nat ->
  i ∈ stoppedBy q -> idle_unfetched q ->
  let q' := foldl (wire_dependency browser first_onChange) q
                  (imap (fun j d => ((k + j)%nat, d)) l) in
  i ∈ stoppedBy q' /\ idle_unfetched q'.
Proof.
  induction l as [|d l IH]; intros k q Hik Hi Hq; [done |].
  cbv zeta. rewrite imap_cons. simpl.
  rewrite (imap_ext _ (fun j d => ((S k + j)%nat, d))).
  2: { intros j x _. simpl. f_equal. lia. }
  rewrite Nat.add_0_r.
  assert (Hd : i ∈ stoppedBy q ∖ {[k]}).
  { apply elem_of_difference. split; [done |].
    rewrite elem_of_singleton. lia. }
  assert (Hu : i ∈ {[k]} ∪ stoppedBy q) by (by apply elem_of_union_r).
  assert (Hstep : i ∈ stoppedBy (wire_dependency browser first_onChange q (k, d))
                  /\ idle_unfetched
                       (wire_dependency browser first_onChange q (k, d))).
  { unfold wire_dependency. simpl. destruct d; [done |].
    destruct (first_onChange k); simpl.
    - done.
    - unfold refetch. rewrite stoppedBy_markStale. split; [done |].
      apply idle_unfetched_markStale; [by apply (blocked_by _ i) | done].
    - unfold invalidateAndRefetch. rewrite stoppedBy_clearCache.
      split; [done |].
      apply idle_unfetched_clearCache; [by apply (blocked_by _ i) | done].
    - unfold invalidateAndRefetch. rewrite stoppedBy_clearCache.
      split; [done |].
      apply idle_unfetched_clearCache; [by apply (blocked_by _ i) | done]. }
  destruct Hstep as [Hi' Hq'].
  apply (IH (S k) _ ltac:(lia) Hi' Hq').
Qed.

(** X24. A query dependency blocks the query from its construction on.
    When dependency [i] is a query dependency and no subscription
    dependency in front of it asks for a refetch at its first [onChange],
    the constructed query has [i] in [stoppedBy], has not invoked the fetch
    function, and exposes idle. *)
Theorem X24_query_dependency_blocks_at_construction
    (opts : UseQueryOptions D E) i :
  dependencies opts !! i = Some DepQuery ->
  (forall j, (j < i)%nat -> dependencies opts !! j = Some DepSubscription ->
     first_onChange j = Nothing \/ first_onChange j = Stop) ->
  let q := Query_new browser opts first_onChange in
  i ∈ stoppedBy q /\ fetchCalls q = 0%nat /\ isFetching q = false /\
  current q = Idle /\ exposed q = Idle.
Proof.
  intros Hi Hquiet q.
  assert (Hsplit : dependencies opts
                   = take i (dependencies opts) ++ DepQuery
                     :: drop (S i) (dependencies opts))
    by (symmetry; by apply take_drop_middle).
  assert (Hlen : length (take i (dependencies opts)) = i).
  { apply length_take_le. apply lookup_lt_Some in Hi. lia. }
  assert (H : i ∈ stoppedBy q /\ idle_unfetched q).
  { unfold q, Query_new. rewrite stoppedBy_fetcher.
    assert (Hw : let q0 := subscribeToDependencies browser first_onChange
                             (Query_fields opts) in
                 i ∈ stoppedBy q0 /\ idle_unfetched q0).
    { unfold subscribeToDependencies. cbn [options Query_fields].
      rewrite Hsplit. rewrite imap_app, foldl_app. rewrite Hlen.
      rewrite imap_cons. simpl.
      set (q1 := foldl _ _ (imap _ (take i (dependencies opts)))).
      assert (H1 : idle_unfetched q1).
      { apply (wire_quiet _ 0 (Query_fields opts)); [| by repeat split].
        intros j Hj. simpl. apply Hquiet.
        - apply lookup_lt_Some in Hj. lia.
        - rewrite lookup_take_Some in Hj. by destruct Hj. }
      rewrite Nat.add_0_r.
      set (q2 := wire_dependency browser first_onChange q1 (i, DepQuery)).
      rewrite (imap_ext _ (fun j d => ((S i + j)%nat, d))).
      2: { intros j x _. simpl. f_equal. lia. }
      apply (wire_blocked i _ (S i) q2); [lia | | done].
      unfold q2, wire_dependency. simpl.
      apply elem_of_union_l. by apply elem_of_singleton. }
    destruct Hw as [Hw1 Hw2]. split; [done |].
    apply idle_unfetched_fetcher; [by apply (blocked_by _ i) | done]. }
  destruct H as [Hin [(Hn & Hw & Hf & Hpc) Hc]].
  split; [done |]. split; [done |]. split; [done |]. split; [done |].
  unfold exposed, currentWithCaching_. by rewrite Hc.
Qed.

End ConstructionBlocking.

(** ** More on the merge of the options *)

Section OptionsMergeMore.

Implicit Types (props acc : list (string * JsValue)) (key : string)
  (v : JsValue).

Lemma recursiveRemoveUndefined_object props :
  recursiveRemoveUndefined (JObject props) = JObject (cleaned_props props).
Proof. reflexivity. Qed.

Lemma recursiveRemoveUndefined_array elems :
  recursiveRemoveUndefined (JArray elems) = JArray (cleaned_elems elems).
Proof. reflexivity. Qed.

Lemma cleaned_props_cons k v rest :
  cleaned_props ((k, v) :: rest) =
  match v with
  | JUndefined => cleaned_props rest
  | _ => (k, recursiveRemoveUndefined v) :: cleaned_props rest
  end.
Proof. by destruct v. Qed.

Lemma cleaned_elems_cons v rest :
  cleaned_elems (v :: rest) = recursiveRemoveUndefined v :: cleaned_elems rest.
Proof. by destruct v. Qed.

Lemma Query_options_object props :
  Query_options (JObject props) =
  js_spread default_options_object (cleaned_props props).
Proof. reflexivity. Qed.

(** The keys that are left are keys that were given a value. *)
Lemma cleaned_props_keys key props :
  key ∈ (cleaned_props props).*1 ->
  exists v, (key, v) ∈ props /\ v <> JUndefined.
Proof.
  induction props as [|[k v] rest IH]; [by intros ?%elem_of_nil |].
  rewrite cleaned_props_cons. intros Hin.
  assert (Hrest : key ∈ (cleaned_props rest).*1 ->
                  exists v0, (key, v0) ∈ (k, v) :: rest /\ v0 <> JUndefined).
  { intros H. destruct (IH H) as (v0 & Hv0 & Hne).
    exists v0. split; [apply elem_of_cons; by right | done]. }
  destruct v; [by apply Hrest | ..];
    (simpl in Hin; apply elem_of_cons in Hin as [-> | Hin];
     [eexists; split; [apply elem_of_cons; by left | done] | by apply Hrest]).
Qed.

Lemma cleaned_props_lookup key v props :
  (key, v) ∈ props -> v <> JUndefined ->
  (key, recursiveRemoveUndefined v) ∈ cleaned_props props.
Proof.
  intros Hin Hne. induction props as [|[k w] rest IH];
    [by apply elem_of_nil in Hin |].
  rewrite cleaned_props_cons.
  apply elem_of_cons in Hin as [Heq | Hin].
  - injection Heq as <- <-. destruct v; [done | ..]; apply elem_of_cons; by left.
  - destruct w; [by apply IH | ..]; apply elem_of_cons; right; by apply IH.
Qed.

Lemma cleaned_props_NoDup props :
  NoDup props.*1 -> NoDup (cleaned_props props).*1.
Proof.
  induction props as [|[k v] rest IH]; [done |].
  simpl. intros [Hk Hrest]%NoDup_cons. rewrite cleaned_props_cons.
  assert (Hk' : k ∉ (cleaned_props rest).*1).
  { intros Hin. destruct (cleaned_props_keys k rest Hin) as (v0 & Hv0 & _).
    apply Hk. apply list_elem_of_fmap. by exists (k, v0). }
  destruct v; [by apply IH | ..]; simpl; apply NoDup_cons; split;
    first [done | by apply IH].
Qed.

Lemma js_get_set_eq key v props : js_get key (js_set key v props) = v.
Proof.
  induction props as [|[k w] rest IH]; simpl.
  - by rewrite String.eqb_refl.
  - destruct (String.eqb k key) eqn:Hk; simpl; by rewrite Hk.
Qed.

Lemma js_get_spread_supplied key v props acc :
  NoDup props.*1 -> (key, v) ∈ props ->
  js_get key (js_spread acc props) = v.
Proof.
  revert acc.
  induction props as [|[k w] rest IH]; intros acc Hnd Hin;
    [by apply elem_of_nil in Hin |].
  change (js_spread acc ((k, w) :: rest))
    with (js_spread (js_set k w acc) rest).
  simpl in Hnd. apply NoDup_cons in Hnd as [Hk Hrest].
  apply elem_of_cons in Hin as [Heq | Hin].
  - injection Heq as <- <-.
    rewrite (js_get_spread_other key rest (js_set key v acc) Hk).
    apply js_get_set_eq.
  - by apply IH.
Qed.

(** X25. An option that the caller leaves out or passes as [undefined]
    takes its default: whenever every property of that name in the supplied
    object is [undefined], the effective options hold the default under that
    name. *)
Theorem X25_undefined_option_takes_the_default key props :
  (forall v, (key, v) ∈ props -> v = JUndefined) ->
  js_get key (Query_options (JObject props)) =
  js_get key default_options_object.
Proof.
  intros Hundef. rewrite Query_options_object.
  apply js_get_spread_other. intros Hin.
  destruct (cleaned_props_keys key props Hin) as (v & Hv & Hne).
  by apply Hne, Hundef.
Qed.

(** X26. An option that the caller supplies replaces the default whole:
    the effective options hold, under that name, the supplied value with
    its [undefined] properties removed and nothing of the default.  In
    particular a supplied group keeps none of the default's fields. *)
Theorem X26_supplied_option_replaces_the_default key v props :
  NoDup props.*1 ->
  (key, v) ∈ props -> v <> JUndefined ->
  js_get key (Query_options (JObject props)) = recursiveRemoveUndefined v.
Proof.
  intros Hnd Hin Hne. rewrite Query_options_object.
  apply js_get_spread_supplied.
  - by apply cleaned_props_NoDup.
  - by apply cleaned_props_lookup.
Qed.

(** Induction on values, with the values inside arrays and objects. *)
Lemma JsValue_nested_ind (P : JsValue -> Prop) :
  P JUndefined -> (forall b, P (JBool b)) -> (forall n, P (JNumber n)) ->
  (forall name, P (JFunction name)) ->
  (forall elems, Forall P elems -> P (JArray elems)) ->
  (forall props, Forall (fun kv => P kv.2) props -> P (JObject props)) ->
  forall v, P v.
Proof.
  intros HU HB HN HF HA HO. fix IH 1. intros [| b | n | name | elems | props].
  - exact HU.
  - apply HB.
  - apply HN.
  - apply HF.
  - apply HA. induction elems as [|x elems IHe]; constructor; [apply IH | exact IHe].
  - apply HO. induction props as [|[k x] props IHp]; constructor;
      [apply IH | exact IHp].
Qed.

Lemma cleaned_props_defined k v rest :
  v <> JUndefined ->
  cleaned_props ((k, v) :: rest)
  = (k, recursiveRemoveUndefined v) :: cleaned_props rest.
Proof. intros H. rewrite cleaned_props_cons. by destruct v. Qed.

Lemma recursiveRemoveUndefined_defined v :
  v <> JUndefined ->
  recursiveRemoveUndefined v <> JUndefined /\
  is_undefined (recursiveRemoveUndefined v) = false.
Proof. by destruct v. Qed.

(** X27. What [recursiveRemoveUndefined] returns has no [undefined]
    property in any object at any depth, and the function changes nothing
    when applied again. *)
Theorem X27_recursiveRemoveUndefined_removes_all v :
  defined_throughout (recursiveRemoveUndefined v) = true /\
  recursiveRemoveUndefined (recursiveRemoveUndefined v)
    = recursiveRemoveUndefined v.
Proof.
  induction v as [| b | n | name | elems IHe | props IHp]
    using JsValue_nested_ind; try done.
  - rewrite recursiveRemoveUndefined_array.
    rewrite (recursiveRemoveUndefined_array (cleaned_elems elems)).
    assert (H : forallb defined_throughout (cleaned_elems elems) = true /\
                cleaned_elems (cleaned_elems elems) = cleaned_elems elems).
    { induction IHe as [|x elems [Hx1 Hx2] _ [IH1 IH2]]; [done |].
      rewrite cleaned_elems_cons. cbn [forallb].
      rewrite cleaned_elems_cons. by rewrite Hx1, IH1, Hx2, IH2. }
    destruct H as [H1 H2]. cbn [defined_throughout]. by rewrite H1, H2.
  - rewrite recursiveRemoveUndefined_object.
    rewrite (recursiveRemoveUndefined_object (cleaned_props props)).
    assert (H : forallb (fun kv : string * JsValue =>
                           negb (is_undefined kv.2) && defined_throughout kv.2)
                        (cleaned_props props) = true /\
                cleaned_props (cleaned_props props) = cleaned_props props).
    { induction IHp as [|[k x] props [Hx1 Hx2] _ [IH1 IH2]]; [done |].
      cbn [snd] in Hx1, Hx2.
      assert (Hcase : x = JUndefined \/ x <> JUndefined)
        by (destruct x; [by left | by right ..]).
      destruct Hcase as [-> | Hx].
      - by rewrite cleaned_props_cons.
      - destruct (recursiveRemoveUndefined_defined x Hx) as [Hd1 Hd2].
        rewrite (cleaned_props_defined k x props Hx).
        rewrite (cleaned_props_defined k _ _ Hd1).
        cbn [forallb snd]. by rewrite Hd2, Hx1, IH1, Hx2, IH2. }
    destruct H as [H1 H2]. cbn [defined_throughout]. by rewrite H1, H2.
Qed.

End OptionsMergeMore.

(** ** The callback of a subscription dependency *)

Section DependencyCallbackFacts.

Context {D E T : Type} `{EqDecision T}.
Variable browser : bool.
Variable onChange : option T -> T -> OnChangeResult.
Variable i : nat.
Implicit Types (st : option T * Query D E) (values : list T).

Lemma subscription_changed_last st v :
  (subscription_changed browser onChange i st v).1 = Some v.
Proof. unfold subscription_changed. by case_decide. Qed.

(** X28. A subscription dependency reacts to changes only.  Running the
    callback over a sequence of store values has the effect of running it
    over the sequence with every value dropped that equals the one before
    it (or equals the value last seen, for the first): [onChange] is not
    consulted for such a value and the query is not touched.  The first
    value ever is never dropped, and afterwards the value last seen is the
    last value of the sequence. *)
Theorem X28_subscription_reacts_to_changes_only st values :
  foldl (subscription_changed browser onChange i) st values
    = foldl (subscription_changed browser onChange i) st
            (without_repeats st.1 values) /\
  (forall (v : T) rest, without_repeats None (v :: rest)
                        = v :: without_repeats (Some v) rest) /\
  (foldl (subscription_changed browser onChange i) st values).1
    = match last values with Some v => Some v | None => st.1 end.
Proof.
  split; [| split].
  - revert st. induction values as [|v rest IH]; intros st; [done |].
    cbn [foldl without_repeats].
    destruct (decide (st.1 = Some v)) as [Hv|Hv].
    + assert (Hsame : subscription_changed browser onChange i st v = st)
        by (unfold subscription_changed; by case_decide).
      rewrite Hsame. apply IH.
    + cbn [foldl]. rewrite IH.
      by rewrite (subscription_changed_last st v).
  - intros v rest. cbn [without_repeats]. by case_decide.
  - revert st. induction values as [|v rest IH]; intros st; [done |].
    cbn [foldl]. rewrite IH, subscription_changed_last.
    destruct rest as [|t rest]; [done |]. rewrite last_cons_cons.
    destruct (last (t :: rest)) eqn:Hl; [done |].
    by apply last_None in Hl.
Qed.

End DependencyCallbackFacts.

(** ** Queries whose options may lack a duration function *)

Section ThrowingCallsFacts.

Context {D E : Type}.
Variable browser : bool.
Variable fns : DurationFns.
Implicit Types (q : Query D E) (op : Op D E).

(** *** With both functions there, nothing new can happen *)

Lemma resetStaleTimer_call_there now cur q :
  has_stale_duration fns = true ->
  resetStaleTimer_call fns now cur q = Normal (resetStaleTimer now cur q).
Proof. unfold resetStaleTimer_call. by intros ->. Qed.

Lemma setData_call_there now data q :
  has_stale_duration fns = true -> has_cache_duration fns = true ->
  setData_call fns now data q = Normal (setData now data q).
Proof.
  intros Hs Hc. unfold setData_call.
  rewrite resetStaleTimer_call_there by done. by rewrite Hc.
Qed.

Lemma fetcher_on_result_call_there now result count q :
  has_stale_duration fns = true -> has_cache_duration fns = true ->
  fetcher_on_result_call browser fns now result count q
    = completion_of (fetcher_on_result browser now result count q).
Proof.
  intros Hs Hc. destruct result as [e b|e|data]; [done | done |].
  unfold fetcher_on_result_call. by rewrite setData_call_there.
Qed.

Lemma step_call_there op q :
  has_stale_duration fns = true -> has_cache_duration fns = true ->
  step_call browser fns op q = completion_of (step browser op q).
Proof.
  intros Hs Hc. destruct op; try done; simpl.
  - destruct (fetcher_pc q); try done.
    by apply fetcher_on_result_call_there.
  - by apply setData_call_there.
  - by apply resetStaleTimer_call_there.
Qed.

Lemma reachable_call_there q :
  has_stale_duration fns = true -> has_cache_duration fns = true ->
  reachable_call browser fns q -> reachable browser q.
Proof.
  intros Hs Hc. induction 1 as [opts oc | q op _ IH]; [constructor |].
  rewrite step_call_there by done.
  destruct (step_returns browser op q) as [q' Hq'].
  rewrite Hq'. by eapply reachable_step.
Qed.

Lemma run_fetcher_call_there fuel clock fetchFn q :
  has_stale_duration fns = true -> has_cache_duration fns = true ->
  run_fetcher_call browser fns fuel clock fetchFn q
    = completion_of <$> run_fetcher browser fuel clock fetchFn q.
Proof.
  intros Hs Hc. revert q. induction fuel as [|fuel IH]; intros q; simpl.
  - by destruct (fetcher_pc q).
  - destruct (fetcher_pc q) as [|count|count]; [done | | apply IH].
    rewrite fetcher_on_result_call_there by done.
    destruct (fetcher_on_result _ _ _ _ _) as [q'|q']; [apply IH | done].
Qed.

(** *** What a call that throws leaves behind *)

(** A call of [resetStaleTimer] ends normally or with a [TypeError], and
    touches the store value only. *)
Lemma resetStaleTimer_call_ends now cur q :
  (has_stale_duration fns = true /\
   resetStaleTimer_call fns now cur q = Normal (resetStaleTimer now cur q)) \/
  (has_stale_duration fns = false /\
   exists q', resetStaleTimer_call fns now cur q = TypeErrorThrown q' /\
     q' = set_query (query q') q /\ cache (query q') = cache (query q) /\
     isStale (stale (query q')) = isStale (stale (query q))).
Proof.
  unfold resetStaleTimer_call.
  destruct (has_stale_duration fns); [by left | right].
  split; [done |]. by eexists.
Qed.

(** A call of [setData] ends normally or with a [TypeError]; either way
    [current] holds the data and nothing but [current] and the store value
    has changed. *)
Lemma setData_call_ends now data q :
  (has_stale_duration fns = true /\ has_cache_duration fns = true /\
   setData_call fns now data q = Normal (setData now data q)) \/
  ((has_stale_duration fns = false \/ has_cache_duration fns = false) /\
   exists q', setData_call fns now data q = TypeErrorThrown q' /\
     q' = set_query (query q') (set_current (Ok data) q) /\
     isStale (stale (query q')) = isStale (stale (query q)) /\
     (has_stale_duration fns = false ->
      cache (query q') = cache (query q))).
Proof.
  unfold setData_call, resetStaleTimer_call.
  destruct (has_stale_duration fns) eqn:Hs.
  - destruct (has_cache_duration fns) eqn:Hc; [by left | right].
    split; [by right |]. eexists. split; [reflexivity |].
    split; [done |]. split; [| done].
    unfold resetStaleTimer. simpl. by case_match.
  - right. split; [by left |]. by eexists.
Qed.

(** *** The outcome [ok] *)

(** X12. A fetch that resolves to [ok] is committed when the options hold
    both duration functions: [current] and the exposed result are [ok] with
    the data, the cache holds the data and is flagged present, the fetch is
    over, and the durations, the dates and the timers are set as the options
    say: a date [duration] milliseconds from now and a pending timer when the
    duration is a number, neither when it is [false]. *)
Theorem X12_successful_fetch_is_committed now data count q :
  has_stale_duration fns = true -> has_cache_duration fns = true ->
  exists q',
    fetcher_on_result_call browser fns now (FOk data) count q = Normal q' /\
    current q' = Ok data /\ exposed q' = Ok data /\
    hasCached (cache (query q')) = true /\
    cache_data (cache (query q')) = Some data /\
    isFetching q' = false /\ fetcher_pc q' = NotRunning /\
    fetchCalls q' = fetchCalls q /\
    cache_duration (cache (query q')) = cache_duration_fn (options q) data /\
    expiresAt (cache (query q'))
      = (fun d => now + d) <$> cache_duration_fn (options q) data /\
    (cache_timeout (cache (query q')) = None <->
     cache_duration_fn (options q) data = None) /\
    stale_duration (stale (query q'))
      = stale_duration_fn (options q) (Ok data) /\
    turnsStaleAt (stale (query q'))
      = (fun d => now + d) <$> stale_duration_fn (options q) (Ok data) /\
    (stale_timeout (stale (query q')) = None <->
     stale_duration_fn (options q) (Ok data) = None).
Proof.
  intros Hs Hc. rewrite fetcher_on_result_call_there by done.
  eexists. split; [reflexivity |].
  split; [reflexivity |].
  split.
  { unfold exposed, currentWithCaching_, setData, resetStaleTimer. simpl.
    destruct (stale_duration_fn _ _); destruct (cache_duration_fn _ _); simpl;
      by destruct (isStale _). }
  unfold setData, resetStaleTimer. simpl.
  destruct (stale_duration_fn _ _); destruct (cache_duration_fn _ _); simpl;
    by repeat split.
Qed.

(** X23. An optimistic update during a fetch, for options that hold both
    duration functions.  [setData] while a fetch is in flight shows the new
    data at once and leaves the fetch running; when the fetch then resolves
    to [ok] its data replaces the update, and when it resolves to [err] the
    cache, and with it the update, is dropped and the query exposes
    loading. *)
Theorem X23_update_during_a_fetch now data count q :
  has_stale_duration fns = true -> has_cache_duration fns = true ->
  isFetching q = true -> fetcher_pc q = AwaitFetch count ->
  exists q1,
    setData_call fns now data q = Normal q1 /\
    (exposed q1 = Ok data /\ isFetching q1 = true /\
     fetcher_pc q1 = AwaitFetch count /\ fetchCalls q1 = fetchCalls q) /\
    (forall later data',
       exists q', step_call browser fns (OpFetchResolved later (FOk data')) q1
                  = Normal q' /\
                  exposed q' = Ok data' /\
                  cache_data (cache (query q')) = Some data') /\
    (forall later e,
       exists q', step_call browser fns (OpFetchResolved later (FErr e)) q1
                  = Normal q' /\
                  exposed q' = Loading /\
                  hasCached (cache (query q')) = false /\
                  current q' = Err false e).
Proof.
  intros Hs Hc Hf Hpc. exists (setData now data q).
  split; [by apply setData_call_there |].
  destruct (update_in_flight browser now data count q Hf Hpc)
    as (Hnow & Hok & Herr).
  split; [exact Hnow |]. split.
  - intros later data'. destruct (Hok later data') as (q' & Hq' & Hrest).
    exists q'. by rewrite step_call_there, Hq'.
  - intros later e. destruct (Herr later e) as (q' & Hq' & Hrest).
    exists q'. by rewrite step_call_there, Hq'.
Qed.

(** *** The outcome [ok] without a duration function *)

(** While a fetch is in flight, a step that is not a resumption leaves the
    coroutine, the flag and the fetch count alone, and [current] too unless
    it puts data there. *)
Lemma busy_step op q q' :
  is_resumption op = false ->
  isFetching q = true ->
  step browser op q = Returned q' ->
  (isFetching q' = true /\ fetcher_pc q' = fetcher_pc q /\
   fetchCalls q' = fetchCalls q /\ retryWaits q' = retryWaits q) /\
  (current q' = current q \/ exists d, current q' = Ok d).
Proof.
  intros Hop Hf H. destruct op; try discriminate Hop; simpl in H.
  - injection H as <-. by rewrite fetcher_busy; [split; [| left] |].
  - destruct (stale_timeout _); injection H as <-; [| by split; [| left]].
    by rewrite markStale_busy; [split; [| left] |].
  - destruct (cache_timeout _); injection H as <-; [| by split; [| left]].
    by rewrite clearCache_busy; [split; [| left] |].
  - injection H as <-. by rewrite markStale_busy; [split; [| left] |].
  - injection H as <-. by rewrite clearCache_busy; [split; [| left] |].
  - injection H as <-. split; [done |]. right. by eexists.
  - injection H as <-. unfold resetStaleTimer. case_match; by split; [| left].
  - injection H as <-. unfold subscribe, refetch.
    repeat case_match; rewrite ?markStale_busy by done; by split; [| left].
  - case_bool_decide; injection H as <-; [| by split; [| left]].
    unfold unsubscribe. case_bool_decide; by split; [| left].
  - injection H as <-. unfold onChange_result, refetch, invalidateAndRefetch.
    destruct result; rewrite ?markStale_busy, ?clearCache_busy by done;
      by split; [| left].
  - injection H as <-. destruct result; simpl;
      rewrite ?markStale_busy, ?clearCache_busy by done; by split; [| left].
Qed.

(** A stalled query stays stalled, whatever is done to it. *)
Lemma stalled_step op q :
  stalled q ->
  let q' := state_after (step_call browser fns op q) in
  stalled q' /\ fetchCalls q' = fetchCalls q /\ retryWaits q' = retryWaits q.
Proof.
  intros (Hf & Hpc & d & Hd) q'. subst q'.
  assert (Hcore : forall op', is_resumption op' = false ->
            let q' := state_after (completion_of (step browser op' q)) in
            stalled q' /\ fetchCalls q' = fetchCalls q /\
            retryWaits q' = retryWaits q).
  { intros op' Hop'. destruct (step_returns browser op' q) as [q' Hq'].
    rewrite Hq'. simpl.
    destruct (busy_step op' q q' Hop' Hf Hq') as [(H1 & H2 & H3 & H4) H5].
    split; [| done]. split; [done |]. split; [congruence |].
    destruct H5 as [H5 | H5]; [exists d; congruence | done]. }
  destruct op; try (by apply Hcore).
  - simpl. rewrite Hpc. simpl. split; [| done]. split; [done |].
    split; [done | by exists d].
  - simpl. rewrite Hpc. simpl. split; [| done]. split; [done |].
    split; [done | by exists d].
  - simpl.
    destruct (setData_call_ends now data q)
      as [(_ & _ & ->) | (_ & q' & -> & -> & _)]; simpl.
    + split; [| done]. split; [done |]. split; [done | by eexists].
    + split; [| done]. split; [done |]. split; [done | by eexists].
  - simpl.
    destruct (resetStaleTimer_call_ends now cur q)
      as [(_ & ->) | (_ & q' & -> & -> & _)]; simpl.
    + unfold resetStaleTimer. case_match; simpl.
      all: split; [| done]; split; [done |]; split; [done | by exists d].
    + split; [| done]. split; [done |]. split; [done | by exists d].
Qed.

Lemma stalled_steps ops q :
  stalled q ->
  let q' := steps_call browser fns ops q in
  stalled q' /\ fetchCalls q' = fetchCalls q /\ retryWaits q' = retryWaits q.
Proof.
  revert q. induction ops as [|op ops IH]; intros q Hq; [done |].
  simpl. destruct (stalled_step op q Hq) as (H1 & H2 & H3).
  destruct (IH _ H1) as (H4 & H5 & H6).
  split; [done |]. split; congruence.
Qed.

(** X29. A duration function lost in the merge stalls the query.  When the
    options lack [stale.duration] or [cache.duration], a fetch that resolves
    to [ok] ends with a [TypeError]: [current] holds the data, the coroutine
    has ended and [isFetching] is still up.  From then on, whatever is called
    and whatever fires, the flag stays up and the fetch function is never
    invoked again.  Without [stale.duration] the cache is not written to at
    all, so that a query that had no cache goes on exposing loading. *)
Theorem X29_lost_duration_function_stalls_the_query now data count q :
  has_stale_duration fns = false \/ has_cache_duration fns = false ->
  isFetching q = true ->
  exists q',
    fetcher_on_result_call browser fns now (FOk data) count q
      = TypeErrorThrown q' /\
    current q' = Ok data /\ isFetching q' = true /\
    fetcher_pc q' = NotRunning /\
    (has_stale_duration fns = false ->
     cache (query q') = cache (query q) /\
     (stale_flag q = true -> hasCached (cache (query q)) = false ->
      exposed q' = Loading)) /\
    (forall ops,
       let q'' := steps_call browser fns ops q' in
       isFetching q'' = true /\ fetcher_pc q'' = NotRunning /\
       fetchCalls q'' = fetchCalls q /\ retryWaits q'' = retryWaits q).
Proof.
  intros Hlost Hf. unfold fetcher_on_result_call.
  destruct (setData_call_ends now data (set_current (Ok data) q))
    as [(Hs & Hc & _) | (_ & q' & -> & Hq' & Hst & Hcache)].
  { destruct Hlost; congruence. }
  eexists. split; [reflexivity |].
  assert (Hstalled : stalled (set_pc NotRunning q')).
  { rewrite Hq'. split; [done |]. split; [done | by eexists]. }
  split; [by rewrite Hq' |]. split; [by rewrite Hq' |]. split; [done |].
  split.
  - intros Hs. specialize (Hcache Hs). split; [done |].
    intros Hstale Hh. unfold exposed. simpl.
    unfold currentWithCaching_, stale_flag in *.
    rewrite Hq'. simpl. simpl in Hst, Hcache.
    by rewrite Hst, Hstale, Hcache, Hh.
  - intros ops.
    destruct (stalled_steps ops _ Hstalled) as ((H1 & H2 & _) & H3 & H4).
    split; [done |]. split; [done |].
    rewrite H3, H4, Hq'. done.
Qed.

(** *** What holds in every state *)

Lemma step_call_plain op q :
  calls_duration op = false ->
  step_call browser fns op q = completion_of (step browser op q).
Proof.
  intros Hop. destruct op; try done. simpl.
  destruct (fetcher_pc q); try done. by destruct result.
Qed.

Lemma flight_or_stalled_step op q :
  flight_inv q \/
  ((has_stale_duration fns = false \/ has_cache_duration fns = false) /\
   stalled q) ->
  let q' := state_after (step_call browser fns op q) in
  flight_inv q' \/
  ((has_stale_duration fns = false \/ has_cache_duration fns = false) /\
   stalled q').
Proof.
  intros [Hq | [Hlost Hq]] q'; subst q';
    [| right; split; [done | by apply stalled_step]].
  destruct (calls_duration op) eqn:Hop.
  2:{ left. rewrite step_call_plain by done.
      destruct (step_returns browser op q) as [q' Hq']. rewrite Hq'.
      by eapply step_keeps_flight_inv. }
  pose proof Hq as [Hf Hcur].
  destruct op as [|now result| | | | | |now data|now cur| | | |];
    try discriminate Hop; simpl.
  - destruct result as [| |data]; try discriminate Hop.
    destruct (fetcher_pc q) eqn:Hpc; [by left | | by left].
    simpl in Hf. unfold fetcher_on_result_call.
    destruct (setData_call_ends now data (set_current (Ok data) q))
      as [(_ & _ & ->) | (Hlost & q' & -> & Hq' & _)]; simpl.
    + left. split; simpl; done.
    + right. split; [done |]. rewrite Hq'.
      split; [done |]. split; [done | by eexists].
  - destruct (setData_call_ends now data q)
      as [(_ & _ & ->) | (_ & q' & -> & -> & _)]; simpl; left;
      split; simpl; done.
  - destruct (resetStaleTimer_call_ends now cur q)
      as [(_ & ->) | (_ & q' & -> & -> & _)]; simpl; left;
      [| split; simpl; done].
    unfold resetStaleTimer. destruct (stale_duration_fn _ _); exact Hq.
Qed.

(** X13. [isFetching] and the coroutine in every state a query reaches,
    whatever its options hold.  While the coroutine [fetcher] is suspended
    at an [await] the flag is up.  The flag is up with the coroutine ended
    only for a query whose options lack a duration function, with data in
    [current]; with both functions there the flag is up exactly while the
    coroutine is suspended.  Loading, and an error with [isRefetching] set,
    occur only while the flag is up; idle, and an error with [isRefetching]
    clear, only while it is down. *)
Theorem X13_status_agrees_with_flight q :
  reachable_call browser fns q ->
  (fetcher_pc q <> NotRunning -> isFetching q = true) /\
  (isFetching q = true -> fetcher_pc q = NotRunning ->
   (has_stale_duration fns = false \/ has_cache_duration fns = false) /\
   exists d, current q = Ok d) /\
  (current q = Loading -> isFetching q = true) /\
  (forall e, current q = Err true e -> isFetching q = true) /\
  (current q = Idle -> isFetching q = false) /\
  (forall e, current q = Err false e -> isFetching q = false).
Proof.
  intros Hq.
  assert (Hinv : flight_inv q \/
            ((has_stale_duration fns = false \/
              has_cache_duration fns = false) /\ stalled q)).
  { induction Hq as [opts oc | q op _ IH].
    - left. apply (reachable_flight_inv browser). constructor.
    - by apply flight_or_stalled_step. }
  destruct Hinv as [[Hf Hcur] | [Hlost (Hf & Hpc & d & Hd)]].
  - split; [rewrite Hf; by destruct (fetcher_pc q) |].
    split; [intros Hup Hpc; rewrite Hpc in Hf; simpl in Hf; congruence |].
    repeat split; intros;
      match goal with Hc : current q = _ |- _ => rewrite Hc in Hcur end;
      done.
  - split; [done |]. split; [intros _ _; split; [done | by exists d] |].
    repeat split; intros; congruence.
Qed.

(** The store value after [markStale] and after [clearCache]. *)
Lemma query_markStale force q :
  query (markStale browser force q)
    = mkItem (mkStale None None None true) (cache (query q)).
Proof. unfold markStale. case_match; [by rewrite query_fetcher | done]. Qed.

Lemma query_clearCache force q :
  query (clearCache browser force q)
    = mkItem (mkStale None None None true)
             (mkCache None None None false (cache_data (cache (query q)))).
Proof. unfold clearCache. by rewrite query_markStale. Qed.

(** Only the steps that call a duration function set a date. *)
Lemma step_sets_no_date op q q' :
  calls_duration op = false ->
  step browser op q = Returned q' ->
  (turnsStaleAt (stale (query q)) = None ->
   turnsStaleAt (stale (query q')) = None) /\
  (expiresAt (cache (query q)) = None ->
   expiresAt (cache (query q')) = None).
Proof.
  intros Hop H. destruct op; try discriminate Hop; simpl in H.
  - injection H as <-. by rewrite query_fetcher.
  - destruct (fetcher_pc q); try (by injection H as <-).
    destruct result as [err b|err|data]; try discriminate Hop;
      unfold fetcher_on_result, fetcher_finish in H;
      cbn [current set_current] in H; cbv beta iota zeta in H.
    + destruct (onRetry _ _ _); injection H as <-.
      * destruct b; [| done].
        change (query (set_pc _ (log_wait _ (set_current _ ?x))))
          with (query x). by rewrite query_clearCache.
      * change (query (set_pc _ (set_isFetching _ ?x))) with (query x).
        by rewrite query_clearCache.
    + injection H as <-.
      change (query (set_pc _ (set_isFetching _ ?x))) with (query x).
      by rewrite query_clearCache.
  - destruct (fetcher_pc q); try (by injection H as <-).
    injection H as <-. by rewrite query_fetcher_loop.
  - destruct (stale_timeout _); injection H as <-; [| done].
    by rewrite query_markStale.
  - destruct (cache_timeout _); injection H as <-; [| done].
    by rewrite query_clearCache.
  - injection H as <-. by rewrite query_markStale.
  - injection H as <-. by rewrite query_clearCache.
  - injection H as <-. unfold subscribe, refetch.
    repeat case_match; rewrite ?query_markStale; done.
  - case_bool_decide; injection H as <-; [| done].
    unfold unsubscribe. by case_bool_decide.
  - injection H as <-. unfold onChange_result, refetch, invalidateAndRefetch.
    destruct result; rewrite ?query_markStale, ?query_clearCache; done.
  - injection H as <-. destruct result; simpl;
      rewrite ?query_markStale, ?query_clearCache; done.
Qed.

Lemma dates_inv_setData_call now data q :
  dates_inv fns (query q) ->
  dates_inv fns (query (state_after (setData_call fns now data q))).
Proof.
  unfold dates_inv, timers_inv, setData_call, resetStaleTimer_call,
    resetStaleTimer.
  destruct (has_stale_duration fns), (has_cache_duration fns); simpl.
  all: try destruct (stale_duration_fn _ _);
       try destruct (cache_duration_fn _ _); simpl.
  all: intuition (auto; congruence).
Qed.

Lemma dates_inv_step op q :
  dates_inv fns (query q) ->
  dates_inv fns (query (state_after (step_call browser fns op q))).
Proof.
  intros Hq. destruct (calls_duration op) eqn:Hop.
  2:{ rewrite step_call_plain by done.
      destruct (step_returns browser op q) as [q' Hq']. rewrite Hq'. simpl.
      destruct Hq as (Ht & Hs & Hc).
      destruct (step_sets_no_date op q q' Hop Hq') as [Hs' Hc'].
      split; [by eapply step_keeps_timers_inv |]. split; auto. }
  destruct op as [|now result| | | | | |now data|now cur| | | |];
    try discriminate Hop; simpl.
  - destruct result as [| |data]; try discriminate Hop.
    destruct (fetcher_pc q); try done.
    unfold fetcher_on_result_call.
    pose proof (dates_inv_setData_call now data (set_current (Ok data) q) Hq)
      as H.
    by destruct (setData_call _ _ _ _).
  - by apply dates_inv_setData_call.
  - revert Hq.
    unfold dates_inv, timers_inv, resetStaleTimer_call, resetStaleTimer.
    destruct (has_stale_duration fns); simpl.
    all: try destruct (stale_duration_fn _ _); simpl.
    all: intuition (auto; congruence).
Qed.

(** X15. The timer fields of a query go together in every state it
    reaches, whatever its options hold.  A staleness timer is pending exactly
    when [turnsStaleAt] is a date, and that exactly when [stale.duration] is
    a number; the same holds of the cache timer, [expiresAt] and
    [cache.duration]; while [hasCached] is false there is no expiry date,
    duration or timer; and a query whose options lack a duration function
    never has the date of that kind. *)
Theorem X15_timer_fields_go_together q :
  reachable_call browser fns q ->
  (stale_timeout (stale (query q)) = None <->
   turnsStaleAt (stale (query q)) = None) /\
  (turnsStaleAt (stale (query q)) = None <->
   stale_duration (stale (query q)) = None) /\
  (cache_timeout (cache (query q)) = None <->
   expiresAt (cache (query q)) = None) /\
  (expiresAt (cache (query q)) = None <->
   cache_duration (cache (query q)) = None) /\
  (hasCached (cache (query q)) = false ->
   expiresAt (cache (query q)) = None /\
   cache_duration (cache (query q)) = None /\
   cache_timeout (cache (query q)) = None) /\
  (has_stale_duration fns = false ->
   turnsStaleAt (stale (query q)) = None) /\
  (has_cache_duration fns = false -> expiresAt (cache (query q)) = None).
Proof.
  intros Hq.
  assert (Hinv : dates_inv fns (query q)).
  { induction Hq as [opts oc | q op _ IH].
    - split; [apply timers_inv_Query_new |].
      unfold Query_new. rewrite query_fetcher.
      pose proof (timers_inv_Query_new browser opts oc) as Ht.
      unfold Query_new in Ht. rewrite query_fetcher in Ht.
      revert Ht. unfold subscribeToDependencies.
      generalize (imap (fun i d => (i, d))
                       (dependencies (options (Query_fields opts)))).
      intros deps _.
      assert (H0 : turnsStaleAt (stale (query (Query_fields opts))) = None /\
                   expiresAt (cache (query (Query_fields opts))) = None)
        by done.
      revert H0. generalize (Query_fields opts : Query D E).
      induction deps as [|[i d] deps IHd]; intros q0 H0;
        [destruct H0; by split |].
      simpl. apply IHd. unfold wire_dependency. simpl.
      destruct d; [done |].
      unfold onChange_result, refetch, invalidateAndRefetch.
      destruct H0 as [H1 H2].
      destruct (oc i); rewrite ?query_markStale, ?query_clearCache;
        simpl; done.
    - by apply dates_inv_step. }
  destruct Hinv as ((H1 & H2 & H3 & H4 & H5) & H6 & H7).
  split; [by rewrite H1 |]. split; [done |]. split; [by rewrite H3 |].
  split; [done |]. split; [| done].
  intros Hh. specialize (H5 Hh). split; [done |].
  split; [by apply H4 | by rewrite H3].
Qed.

End ThrowingCallsFacts.

(** *** Whole runs *)

Section ThrowingRuns.

Context {D E : Type}.
Variable fns : DurationFns.
Variable clock : nat -> Z.
Variable fetchFn : nat -> FetchResult D E.
Implicit Types (q : Query D E).

(** A run goes as it would with both duration functions there, up to the
    [ok] that ends it: without one of them the run ends there with a
    [TypeError], on the same [current] and the same counts, and with
    [isFetching] still up. *)
Lemma run_call_follows browser fuel : forall q q',
  pc_inv q ->
  run_fetcher browser fuel clock fetchFn q = Some (Returned q') ->
  run_fetcher_call browser fns fuel clock fetchFn q = Some (Normal q') \/
  ((has_stale_duration fns = false \/ has_cache_duration fns = false) /\
   exists q'',
     run_fetcher_call browser fns fuel clock fetchFn q
       = Some (TypeErrorThrown q'') /\
     isFetching q'' = true /\ fetcher_pc q'' = NotRunning /\
     fetchCalls q'' = fetchCalls q' /\ retryWaits q'' = retryWaits q' /\
     current q'' = current q').
Proof.
  induction fuel as [|fuel IH]; intros q q' Hinv Hrun; simpl in *;
    destruct (fetcher_pc q) as [|count|count] eqn:Hpc;
    try discriminate Hrun; try (injection Hrun as <-; by left).
  - unfold pc_inv in Hinv. rewrite Hpc in Hinv. simpl in Hinv.
    destruct (fetchFn (Nat.pred (fetchCalls q))) as [e b|e|data] eqn:Hfn.
    + cbn [fetcher_on_result_call].
      destruct (fetcher_on_result _ _ _ _ _) as [q1|q1] eqn:Hres;
        [| discriminate Hrun].
      apply IH; [| done]. by eapply pc_inv_fetcher_on_result.
    + cbn [fetcher_on_result_call].
      destruct (fetcher_on_result _ _ _ _ _) as [q1|q1] eqn:Hres;
        [| discriminate Hrun].
      apply IH; [| done]. by eapply pc_inv_fetcher_on_result.
    + unfold fetcher_on_result, fetcher_finish in Hrun.
      cbn [current set_current] in Hrun. cbv beta iota in Hrun.
      rewrite run_fetcher_done in Hrun by done. injection Hrun as <-.
      unfold fetcher_on_result_call.
      destruct (setData_call_ends fns (clock (Nat.pred (fetchCalls q))) data
                  (set_current (Ok data) q))
        as [(_ & _ & ->) | (Hlost & q'' & -> & Hq'' & _)].
      * left. destruct fuel; reflexivity.
      * right. split; [done |]. eexists. split; [reflexivity |].
        rewrite Hq''. by repeat split.
  - unfold pc_inv in Hinv. rewrite Hpc in Hinv. simpl in Hinv.
    apply IH; [| done]. by apply pc_inv_fetcher_loop.
Qed.

(** X20. A retry policy that gives up bounds the fetch, whatever the
    options hold.  If [onRetry] answers [false] for the count [bound + 1]
    whatever the error, then a fetch left to run ends whatever the fetch
    function resolves to: after at most [2 * bound + 1] resumptions the
    coroutine is over with [current] at [ok] or [err], the fetch function was
    invoked at most [bound + 1] times and at most [bound] retry timers were
    set.  It ends normally with [isFetching] down, or, for options that lack
    a duration function, with a [TypeError] and [isFetching] up; never with
    the error of the check in [fetcher]. *)
Theorem X20_bounded_policy_ends_the_fetch (bound : nat) q :
  stale_flag q = true -> isFetching q = false -> stoppedBy q = ∅ ->
  (forall e, onRetry (options q) (S bound) e = None) ->
  exists c,
    run_fetcher_call true fns (2 * bound + 1) clock fetchFn (fetcher true q)
      = Some c /\
    fetcher_pc (state_after c) = NotRunning /\
    settled (current (state_after c)) = true /\
    (fetchCalls (state_after c) <= fetchCalls q + bound + 1)%nat /\
    (length (retryWaits (state_after c))
       <= length (retryWaits q) + bound)%nat /\
    match c with
    | Normal q' => isFetching q' = false
    | TypeErrorThrown q' =>
      isFetching q' = true /\
      (has_stale_duration fns = false \/ has_cache_duration fns = false)
    | ErrorThrown _ => False
    end.
Proof.
  intros Hs Hf He Hbound.
  destruct (bounded_fetch_returns clock fetchFn bound q Hs Hf He Hbound)
    as (q' & Hrun & Hpc & Hfin & Hc & Hn & Hw).
  assert (Hinv : pc_inv (fetcher true q)).
  { destruct (fetcher_enters true q eq_refl Hs Hf He)
      as (_ & H1 & H2 & _). unfold pc_inv. by rewrite H1, H2. }
  destruct (run_call_follows true _ _ _ Hinv Hrun)
    as [Hcall | (Hlost & q'' & Hcall & H1 & H2 & H3 & H4 & H5)].
  - exists (Normal q'). by repeat split.
  - exists (TypeErrorThrown q''). simpl. rewrite H3, H4, H5.
    by repeat split.
Qed.

(** X21. Round trip through an invalidation, for options that hold both
    duration functions.  [invalidateAndRefetch] on a query at rest that
    nothing blocks drops the cache, exposes loading and starts a fetch; when
    that fetch resolves to [ok] the query exposes the new data and caches
    it, whatever the cache held before. *)
Theorem X21_invalidate_then_fetch_caches_anew q data :
  has_stale_duration fns = true -> has_cache_duration fns = true ->
  isFetching q = false -> stoppedBy q = ∅ ->
  fetchFn (fetchCalls q) = FOk data ->
  let q1 := invalidateAndRefetch true q in
  (hasCached (cache (query q1)) = false /\ exposed q1 = Loading /\
   isFetching q1 = true /\ fetchCalls q1 = S (fetchCalls q)) /\
  exists q',
    run_fetcher_call true fns 1 clock fetchFn q1 = Some (Normal q') /\
    exposed q' = Ok data /\
    hasCached (cache (query q')) = true /\
    cache_data (cache (query q')) = Some data /\
    isFetching q' = false /\ fetchCalls q' = S (fetchCalls q).
Proof.
  intros Hs Hc Hf He Hfn q1.
  destruct (invalidate_round_trip clock fetchFn q data Hf He Hfn)
    as [H1 (q' & Hrun & Hrest)].
  split; [exact H1 |]. exists q'. split; [| exact Hrest].
  unfold q1. rewrite run_fetcher_call_there by done. by rewrite Hrun.
Qed.

End ThrowingRuns.

(** * The further properties at concrete queries *)

Lemma X3_witness :
  let key := ["wallet"%string] in
  let r := createQueryMap (D:=nat) (E:=string) in
  (key <> [] /\ find_query key (queryMap (world r)) = None) /\
  exists r' id,
    useQuery true key default_options (fun _ => Nothing) (fun _ => []) r
      = Some (r', id) /\
    (getQuery key (queryMap (world r'))).2 = Some id /\
    notified (world r') = 1%nat.
Proof.
  intros key r.
  assert (H1 : key <> []) by done.
  assert (H2 : find_query key (queryMap (world r)) = None)
    by (by apply find_query_empty).
  split; [done |].
  destruct (X3_useQuery_registers_a_new_query true key default_options
              (fun _ => Nothing) (fun _ => []) r H1 H2)
    as (r' & id & Hu & _ & _ & _ & Hg & Hn).
  by exists r', id.
Defined.

Lemma X4_witness :
  find_query ["user"%string] (queryMap (world one_query_registry))
    = Some 0%nat /\
  useQuery true ["user"%string] gated_options (fun _ => Refetch)
           (fun _ => []) one_query_registry
    = Some (one_query_registry, 0%nat).
Proof.
  assert (H : find_query ["user"%string]
                (queryMap (world one_query_registry)) = Some 0%nat)
    by (vm_compute; reflexivity).
  split; [exact H |].
  exact (X4_useQuery_finds_the_registered_query true ["user"%string]
           gated_options (fun _ => Refetch) (fun _ => [])
           one_query_registry 0%nat H).
Defined.

Lemma X5_witness :
  exists r' id,
    useQuery true ["wallet"%string] default_options (fun _ => Nothing)
             (fun _ => []) one_query_registry = Some (r', id) /\
    find_query ["user"%string] (queryMap (world r')) = Some 0%nat /\
    queries (world r') !! 0%nat = Some fresh_query.
Proof.
  destruct (useQuery true ["wallet"%string] default_options
              (fun _ => Nothing) (fun _ => []) one_query_registry)
    as [[r' id]|] eqn:Hu; [| vm_compute in Hu; discriminate Hu].
  exists r', id. split; [reflexivity |].
  assert (Hpre : ~ ["wallet"%string] `prefix_of` ["user"%string]).
  { intros [k Hk]. discriminate Hk. }
  assert (Hf : find_query ["user"%string]
                 (queryMap (world one_query_registry)) = Some 0%nat)
    by (vm_compute; reflexivity).
  assert (Hq : queries (world one_query_registry) !! 0%nat = Some fresh_query)
    by apply lookup_singleton_eq.
  destruct (X5_useQuery_keeps_other_keys true ["wallet"%string]
              default_options (fun _ => Nothing) (fun _ => [])
              one_query_registry r' id ["user"%string] 0%nat Hpre Hf
              (mk_is_Some _ _ Hq) Hu) as [H1 H2].
  split; [exact H1 |]. by rewrite H2.
Defined.

Lemma X7_witness :
  exists r' id,
    useQuery true ["a"%string] default_options (fun _ => Nothing)
             (fun _ => []) nested_registry = Some (r', id) /\
    find_query ["a"; "b"]%string (queryMap (world nested_registry))
      = Some 0%nat /\
    find_query ["a"%string] (queryMap (world r')) = Some id /\
    find_query ["a"; "b"]%string (queryMap (world r')) = None.
Proof.
  destruct (useQuery true ["a"%string] default_options
              (fun _ => Nothing) (fun _ => []) nested_registry)
    as [[r' id]|] eqn:Hu; [| vm_compute in Hu; discriminate Hu].
  exists r', id. split; [reflexivity |].
  split; [vm_compute; reflexivity |].
  assert (Hnone : find_query ["a"%string]
                    (queryMap (world nested_registry)) = None)
    by (vm_compute; reflexivity).
  exact (X7_useQuery_on_a_prefix_unregisters true ["a"%string] ["b"%string]
           default_options (fun _ => Nothing) (fun _ => []) nested_registry
           r' id ltac:(discriminate) ltac:(discriminate) Hnone Hu).
Defined.

Lemma X10_witness :
  let q' := markStale true true blocked_query in
  (step true (OpMarkStale true) blocked_query = Returned q' /\
   stoppedBy q' <> ∅) /\
  fetchCalls q' = fetchCalls blocked_query /\
  fetchCalls q' = 0%nat.
Proof.
  intros q'.
  assert (Hstep : step true (OpMarkStale true) blocked_query = Returned q')
    by reflexivity.
  assert (Hne : stoppedBy q' <> ∅).
  { apply (blocked_by _ 0%nat). unfold q', blocked_query.
    rewrite stoppedBy_markStale. simpl. unfold invalidateAndRefetch.
    rewrite stoppedBy_clearCache. simpl.
    apply elem_of_union_l. by apply elem_of_singleton. }
  split; [done |].
  pose proof (X10_blocked_query_invokes_no_fetch true (OpMarkStale true)
                blocked_query q' Hstep Hne) as H.
  split; [exact H |]. rewrite H. vm_compute. reflexivity.
Defined.

Lemma X11_witness :
  let q' := invalidateAndRefetch true fresh_query in
  (isFetching fresh_query = true /\
   step true (OpClearCache true) fresh_query = Returned q') /\
  fetchCalls q' = 1%nat /\ fetcher_pc q' = AwaitFetch 0 /\
  retryWaits q' = [] /\ isFetching q' = true.
Proof.
  intros q'.
  assert (Hf : isFetching fresh_query = true) by reflexivity.
  assert (Hstep : step true (OpClearCache true) fresh_query = Returned q')
    by reflexivity.
  split; [done |].
  exact (X11_no_second_fetch_in_flight true (OpClearCache true) fresh_query
           q' eq_refl Hf Hstep).
Defined.

Lemma X14_witness :
  let q : Query nat string :=
    setData 0 7%nat (Query_new false default_options (fun _ => Nothing)) in
  reachable false q /\
  fetchCalls q = 0%nat /\ retryWaits q = [] /\
  isFetching q = false /\ fetcher_pc q = NotRunning /\
  (current q = Idle \/ exists d, current q = Ok d).
Proof.
  intros q.
  assert (Hr : reachable false q).
  { apply (reachable_step false
             (Query_new false default_options (fun _ => Nothing))
             (OpSetData 0 7%nat)); [constructor | reflexivity]. }
  split; [exact Hr |].
  exact (X14_no_fetch_outside_the_browser q Hr).
Defined.

Lemma X16_witness :
  let q := subscribe true fresh_query in
  reachable true q /\
  (dataInUse q = true <-> (0 < subscribers q)%nat) /\
  subscribers q = 1%nat.
Proof.
  intros q.
  assert (Hr : reachable true q).
  { apply (reachable_step true fresh_query OpSubscribe);
      [constructor | reflexivity]. }
  split; [exact Hr |].
  split; [exact (X16_in_use_iff_subscribed true q Hr) | reflexivity].
Defined.

Lemma X17_witness :
  let q : Query nat string :=
    Query_new true gated_options (fun _ => Nothing) in
  reachable true q /\
  fetchCalls (subscribe true q) = 0%nat /\
  dataInUse (subscribe true q) = true /\
  subscribers (subscribe true q) = 1%nat.
Proof.
  intros q.
  assert (Hr : reachable true q) by constructor.
  split; [exact Hr |].
  destruct (X17_first_subscriber_starts_the_fetch true q Hr)
    as (H1 & H2 & H3).
  split; [| by split].
  rewrite H1. vm_compute. reflexivity.
Defined.


Lemma X19_witness :
  (stale_flag unfetched_query = true /\
   isFetching unfetched_query = false /\
   stoppedBy unfetched_query = ∅) /\
  exists q',
    run_fetcher true 7 (fun _ => 0) always_retry
      (fetcher true unfetched_query) = Some (Returned q') /\
    fetchCalls q' = 4%nat /\
    retryWaits q' = [0; 0; 0] /\
    current q' = Err false "offline"%string /\
    fetcher_pc q' = NotRunning /\ isFetching q' = false.
Proof.
  split; [by repeat split |].
  refine (X19_retries_follow_the_policy (fun _ => 0) always_retry
            (fun _ => "offline"%string) [0; 0; 0] unfetched_query
            eq_refl eq_refl eq_refl _ _ eq_refl).
  - intros k. by exists false.
  - intros [|[|[|i]]] w Hw; simpl in Hw; try discriminate Hw;
      injection Hw as <-; reflexivity.
Defined.

Lemma X22_witness :
  (hasCached (cache (query cached_query)) = true /\
   cache_data (cache (query cached_query)) = Some 7%nat /\
   current cached_query <> Idle /\ stoppedBy cached_query = ∅) /\
  (exposed (markStale true true cached_query) = Ok 7%nat /\
   hasCached (cache (query (markStale true true cached_query))) = true) /\
  (exists q', fetcher_on_result true 0 (FRetry "offline"%string false) 0
                cached_query = Returned q' /\ exposed q' = Ok 7%nat) /\
  (exists q', fetcher_on_result true 0 (FRetry "offline"%string true) 0
                cached_query = Returned q' /\ exposed q' = Loading /\
              current q' = Err true "offline"%string /\
              hasCached (cache (query q')) = false).
Proof.
  assert (Hc : current cached_query <> Idle) by (vm_compute; discriminate).
  split; [by repeat split |].
  destruct (X22_cached_data_is_served_while_refetching true cached_query
              7%nat eq_refl eq_refl Hc eq_refl) as [Hmark Hretry].
  split; [exact (Hmark true) |].
  exact (Hretry 0 "offline"%string 0%nat 0 eq_refl eq_refl eq_refl).
Defined.

Lemma X24_witness :
  let q : Query nat string :=
    Query_new true gated_options (fun _ => Nothing) in
  dependencies gated_options !! 1%nat = Some DepQuery /\
  (1%nat ∈ stoppedBy q /\ fetchCalls q = 0%nat /\ isFetching q = false /\
   current q = Idle /\ exposed q = Idle).
Proof.
  intros q. split; [reflexivity |].
  refine (X24_query_dependency_blocks_at_construction true
            (fun _ => Nothing) gated_options 1%nat eq_refl _).
  intros j _ _. by left.
Defined.

Lemma X25_witness :
  let props : list (string * JsValue) :=
    [ ("cache", JUndefined);
      ("stale", JObject [("onSubscribeIfUnused", JBool true)]) ]%string in
  js_get "cache" (Query_options (JObject props)) =
  js_get "cache" default_options_object.
Proof.
  intros props.
  apply (X25_undefined_option_takes_the_default "cache"%string props).
  intros v Hin. unfold props in Hin.
  apply elem_of_cons in Hin as [Heq | Hin]; [by injection Heq |].
  apply elem_of_cons in Hin as [Heq | Hin]; [discriminate Heq |].
  by apply elem_of_nil in Hin.
Defined.

Lemma X26_witness :
  let v := JObject [("onSubscribeIfUnused", JBool true)]%string in
  let props : list (string * JsValue) :=
    [ ("cache", JUndefined); ("stale", v) ]%string in
  (NoDup props.*1 /\ (("stale"%string, v) ∈ props) /\ v <> JUndefined) /\
  js_get "stale" (Query_options (JObject props)) = v.
Proof.
  intros v props.
  assert (Hnd : NoDup props.*1).
  { unfold props. simpl.
    apply NoDup_cons. split.
    - intros Hin. apply elem_of_cons in Hin as [Heq | Hin];
        [discriminate Heq | by apply elem_of_nil in Hin].
    - apply NoDup_cons. split; [apply not_elem_of_nil | apply NoDup_nil_2]. }
  assert (Hin : ("stale"%string, v) ∈ props).
  { unfold props. apply elem_of_cons. right. apply elem_of_cons. by left. }
  assert (Hv : v <> JUndefined) by discriminate.
  split; [done |].
  exact (X26_supplied_option_replaces_the_default "stale"%string v props
           Hnd Hin Hv).
Defined.

Lemma X12_witness :
  (has_stale_duration default_fns = true /\
   has_cache_duration default_fns = true) /\
  exists q',
    fetcher_on_result_call true default_fns 50 (FOk 7%nat) 0 fresh_query
      = Normal q' /\
    exposed q' = Ok 7%nat /\ isFetching q' = false /\
    hasCached (cache (query q')) = true /\
    cache_timeout (cache (query q')) = None.
Proof.
  split; [by split |].
  destruct (X12_successful_fetch_is_committed true default_fns 50 7%nat 0%nat
              fresh_query eq_refl eq_refl)
    as (q' & Hq' & _ & Hexp & Hh & _ & Hf & _ & _ & _ & _ & Ht & _).
  exists q'. split; [exact Hq' |]. split; [exact Hexp |].
  split; [exact Hf |]. split; [exact Hh |]. by apply Ht.
Defined.

Lemma X13_witness :
  let q : Query nat string :=
    state_after
      (step_call true lossy_fns (OpFetchResolved 50 (FOk 7%nat)) lossy_query) in
  reachable_call true lossy_fns q /\
  isFetching q = true /\ fetcher_pc q = NotRunning /\
  has_stale_duration lossy_fns = false /\
  exists d, current q = Ok d.
Proof.
  intros q.
  assert (Hr : reachable_call true lossy_fns q)
    by (apply reachable_call_step; constructor).
  assert (Hf : isFetching q = true) by reflexivity.
  assert (Hpc : fetcher_pc q = NotRunning) by reflexivity.
  destruct (X13_status_agrees_with_flight true lossy_fns q Hr)
    as (_ & Hstalled & _).
  destruct (Hstalled Hf Hpc) as [_ Hd].
  by repeat split.
Defined.

Lemma X15_witness :
  let q : Query nat string :=
    state_after
      (step_call true default_fns (OpSetData 100 7%nat)
         (Query_new true (stale_after 1000) (fun _ => Nothing))) in
  reachable_call true default_fns q /\
  turnsStaleAt (stale (query q)) = Some 1100 /\
  stale_timeout (stale (query q)) <> None /\
  cache_timeout (cache (query q)) = None.
Proof.
  intros q.
  assert (Hr : reachable_call true default_fns q)
    by (apply reachable_call_step; constructor).
  split; [exact Hr |]. split; [reflexivity |].
  destruct (X15_timer_fields_go_together true default_fns q Hr)
    as (H1 & _ & H3 & _).
  split; [| by apply H3].
  intros Hnone. apply H1 in Hnone. discriminate Hnone.
Defined.

Lemma X20_witness :
  (stale_flag lossy_unfetched = true /\
   isFetching lossy_unfetched = false /\
   stoppedBy lossy_unfetched = ∅) /\
  exists c,
    run_fetcher_call true lossy_fns 7 (fun _ => 0) always_seven
      (fetcher true lossy_unfetched) = Some c /\
    c = TypeErrorThrown (state_after c) /\
    isFetching (state_after c) = true /\
    (fetchCalls (state_after c) <= 4)%nat.
Proof.
  split; [by repeat split |].
  destruct (X20_bounded_policy_ends_the_fetch lossy_fns (fun _ => 0)
              always_seven 3 lossy_unfetched eq_refl eq_refl eq_refl
              (fun e => eq_refl))
    as (c & Hrun & _ & _ & Hn & _ & Hc).
  exists c. split; [exact Hrun |].
  assert (Hthrown : c = TypeErrorThrown (state_after c)).
  { vm_compute in Hrun. injection Hrun as <-. reflexivity. }
  split; [exact Hthrown |]. split; [| exact Hn].
  rewrite Hthrown in Hc. by destruct Hc.
Defined.

Lemma X21_witness :
  let q : Query nat string := setData 5 3%nat unfetched_query in
  (has_stale_duration default_fns = true /\
   has_cache_duration default_fns = true /\
   exposed q = Ok 3%nat /\ isFetching q = false /\ stoppedBy q = ∅ /\
   always_seven (fetchCalls q) = FOk 7%nat) /\
  exposed (invalidateAndRefetch true q) = Loading /\
  exists q',
    run_fetcher_call true default_fns 1 (fun _ => 0) always_seven
      (invalidateAndRefetch true q) = Some (Normal q') /\
    exposed q' = Ok 7%nat /\
    hasCached (cache (query q')) = true /\
    cache_data (cache (query q')) = Some 7%nat.
Proof.
  intros q. split; [by repeat split |].
  destruct (X21_invalidate_then_fetch_caches_anew default_fns (fun _ => 0)
              always_seven q 7%nat eq_refl eq_refl eq_refl eq_refl eq_refl)
    as [(_ & Hl & _) (q' & Hrun & Hex & Hc & Hd & _)].
  split; [exact Hl |].
  exists q'. by repeat split.
Defined.

Lemma X23_witness :
  (has_stale_duration default_fns = true /\
   has_cache_duration default_fns = true /\
   isFetching fresh_query = true /\ fetcher_pc fresh_query = AwaitFetch 0) /\
  exists q1,
    setData_call default_fns 10 7%nat fresh_query = Normal q1 /\
    (exposed q1 = Ok 7%nat /\ isFetching q1 = true /\
     fetcher_pc q1 = AwaitFetch 0 /\
     fetchCalls q1 = fetchCalls fresh_query) /\
    (exists q', step_call true default_fns (OpFetchResolved 20 (FOk 8%nat)) q1
                = Normal q' /\
                exposed q' = Ok 8%nat /\
                cache_data (cache (query q')) = Some 8%nat) /\
    (exists q', step_call true default_fns
                  (OpFetchResolved 20 (FErr "denied"%string)) q1
                = Normal q' /\
                exposed q' = Loading /\
                hasCached (cache (query q')) = false /\
                current q' = Err false "denied"%string).
Proof.
  split; [by repeat split |].
  destruct (X23_update_during_a_fetch true default_fns 10 7%nat 0%nat
              fresh_query eq_refl eq_refl eq_refl eq_refl)
    as (q1 & Hq1 & Hnow & Hok & Herr).
  exists q1. split; [exact Hq1 |]. split; [exact Hnow |].
  split; [exact (Hok 20 8%nat) | exact (Herr 20 "denied"%string)].
Defined.

Lemma X29_witness :
  ((has_stale_duration lossy_fns = false \/
    has_cache_duration lossy_fns = false) /\
   isFetching lossy_query = true) /\
  exists q',
    fetcher_on_result_call true lossy_fns 50 (FOk 7%nat) 0 lossy_query
      = TypeErrorThrown q' /\
    current q' = Ok 7%nat /\ exposed q' = Loading /\
    isFetching q' = true /\
    let q'' :=
      steps_call true lossy_fns [OpMarkStale true; OpSubscribe; OpFetcher]
        q' in
    isFetching q'' = true /\ fetchCalls q'' = 1%nat.
Proof.
  assert (Hlost : has_stale_duration lossy_fns = false \/
                  has_cache_duration lossy_fns = false)
    by (left; reflexivity).
  split; [by split |].
  destruct (X29_lost_duration_function_stalls_the_query true lossy_fns 50
              7%nat 0%nat lossy_query Hlost eq_refl)
    as (q' & Hq' & Hc & Hf & _ & Hcache & Hever).
  exists q'. split; [exact Hq' |]. split; [exact Hc |].
  split; [exact (proj2 (Hcache eq_refl) eq_refl eq_refl) |].
  split; [exact Hf |].
  destruct (Hever [OpMarkStale true; OpSubscribe; OpFetcher])
    as (H1 & _ & H2 & _).
  by split.
Defined.
